(** * marklume: the article store of [backend/database.py]

    A shallow embedding of the in-memory article catalog and of the
    file-backed operations around it, followed by the properties the
    specification states about them.

    Conventions of the embedding.
    - A Python [str] is a [string]; every [ascii] stands for the code point
      of the same number (0-255). The two messages [get_article] leaves in
      place of a content it could not load are Chinese text; they are held
      in their UTF-8 encoding.
    - A Python [int] is a [Z].
    - [datetime] values are records of their calendar fields, as CPython
      stores them; a [timedelta] is its total number of microseconds.
    - The module globals [db] and [next_id] form the record [Store].
    - The file system is the record [World]: what every file holds (text,
      stored in UTF-8, or bytes that are no valid UTF-8), the paths on which
      the operating system refuses a write, a read or a removal ([OSError]),
      what a refused write leaves in the file, and the log of the file
      operations attempted so far. The platform is POSIX: paths are joined
      by [posixpath], a text file is written as it is given ([os.linesep]
      is the line feed), and it is read back with universal newlines.
    - Every reading of the clock ([datetime.now()]) is an argument of the
      operation that performs it.
    - An operation takes the world and the store and returns both together
      with what the Python function returns or raises. *)

From Stdlib Require Import Ascii.
From stdpp Require Import base numbers strings list sorting gmap pretty.

Local Open Scope Z_scope.

(** ** [datetime] and [timedelta] *)

Module Datetime.

Record datetime : Type := mk_datetime {
  year : Z;
  month : Z;
  day : Z;
  hour : Z;
  minute : Z;
  second : Z;
  microsecond : Z
}.

(** [_is_leap], [_days_before_year], [_days_before_month] and [_ymd2ord]
    of CPython's [datetime] module. *)
Definition is_leap (y : Z) : bool :=
  (y mod 4 =? 0) && (negb (y mod 100 =? 0) || (y mod 400 =? 0)).

Definition days_before_year (y : Z) : Z :=
  let y' := y - 1 in y' * 365 + y' / 4 - y' / 100 + y' / 400.

Definition DAYS_BEFORE_MONTH : list Z :=
  [-1; 0; 31; 59; 90; 120; 151; 181; 212; 243; 273; 304; 334].

Definition days_before_month (y m : Z) : Z :=
  nth (Z.to_nat m) DAYS_BEFORE_MONTH 0
  + (if (2 <? m) && is_leap y then 1 else 0).

Definition toordinal (d : datetime) : Z :=
  days_before_year (year d) + days_before_month (year d) (month d) + day d.

(** A [timedelta], as its total number of microseconds; comparing two
    normalised [timedelta]s compares these totals. *)
Definition timedelta : Type := Z.

Definition timedelta_of (days seconds microseconds : Z) : timedelta :=
  (days * 86400 + seconds) * 1000000 + microseconds.

Definition minutes (n : Z) : timedelta := timedelta_of 0 (n * 60) 0.

(** [datetime.__sub__] on two naive datetimes. *)
Definition sub (a b : datetime) : timedelta :=
  let secs d := second d + minute d * 60 + hour d * 3600 in
  timedelta_of (toordinal a - toordinal b) (secs a - secs b)
               (microsecond a - microsecond b).

(** Two decimal digits, zero padded: the [%d], [%m] and [%y] fields. *)
Definition pad2 (n : Z) : string :=
  if n <? 10 then "0" +:+ pretty n else pretty n.

(** [strftime("%d%m%y")]: day, month, year without century. *)
Definition strftime_dmy (d : datetime) : string :=
  pad2 (day d) +:+ pad2 (month d) +:+ pad2 (year d mod 100).

End Datetime.
Export Datetime.

(** ** [backend/models.py] *)

Record Article : Type := mk_Article {
  id : Z;
  title : string;
  content : string;
  created_at : datetime;
  updated_at : datetime;
  file_path : option string;
  last_accessed : datetime
}.

(** Truth value of a [str], and of a [str] that may be [None]. *)
Definition truthy (s : string) : bool :=
  match s with EmptyString => false | String _ _ => true end.

Definition truthy_path (p : option string) : bool :=
  match p with Some s => truthy s | None => false end.

(** In-place assignments to the attributes of an article. *)
Definition set_content (c : string) (a : Article) : Article :=
  mk_Article (id a) (title a) c (created_at a) (updated_at a)
             (file_path a) (last_accessed a).

Definition set_last_accessed (t : datetime) (a : Article) : Article :=
  mk_Article (id a) (title a) (content a) (created_at a) (updated_at a)
             (file_path a) t.

Definition set_title (s : string) (a : Article) : Article :=
  mk_Article (id a) s (content a) (created_at a) (updated_at a)
             (file_path a) (last_accessed a).

Definition set_updated_at (t : datetime) (a : Article) : Article :=
  mk_Article (id a) (title a) (content a) (created_at a) t
             (file_path a) (last_accessed a).

(** ** The file system *)

Inductive io_event : Type :=
  | EvRead (path : string)
  | EvWrite (path : string) (text : string)
  | EvRemove (path : string).

(** What a file holds: text, which the program writes and reads in UTF-8, or
    bytes that do not decode as UTF-8. *)
Inductive file : Type :=
  | Text (text : string)
  | NotUtf8.

Record World : Type := mk_World {
  files : gmap string file;
  write_fails : string → bool;
  write_leaves : string → option file;
  read_fails : string → bool;
  remove_fails : string → bool;
  trace : list io_event
}.

Definition log (e : io_event) (w : World) : World :=
  mk_World (files w) (write_fails w) (write_leaves w) (read_fails w)
           (remove_fails w) (e :: trace w).

Definition with_files (m : gmap string file) (w : World) : World :=
  mk_World m (write_fails w) (write_leaves w) (read_fails w) (remove_fails w)
           (trace w).

(** [os.path.exists]. *)
Definition path_exists (w : World) (p : string) : bool :=
  bool_decide (is_Some (files w !! p)).

(** The world after a write to [p] that ended in an [OSError]: the file is
    untouched when it could not be opened ([write_leaves] answers [None]),
    and holds what got through when the failure came later. *)
Definition failed_write (w : World) (p text : string) : World :=
  let w := log (EvWrite p text) w in
  match write_leaves w p with
  | None => w
  | Some got_through => with_files (<[p := got_through]> (files w)) w
  end.

(** [open(p, 'w')] followed by [f.write(text)]; [false] stands for an
    [OSError]. *)
Definition write_file (w : World) (p text : string) : World * bool :=
  if write_fails w p then (failed_write w p text, false)
  else (with_files (<[p := Text text]> (files w)) (log (EvWrite p text) w),
        true).

Definition ascii_eqb (a b : ascii) : bool := bool_decide (a = b).

Inductive read_result : Type :=
  | ReadOk (text : string)
  | ReadFileNotFoundError
  | ReadOSError
  | ReadUnicodeDecodeError.

Definition CR : ascii := "013"%char.
Definition LF : ascii := "010"%char.

(** What a text file opened with [newline=None] hands to the reader: every
    line ending, be it CR LF, a lone CR or LF, arrives as LF. *)
Fixpoint universal_newlines (s : string) : string :=
  match s with
  | EmptyString => EmptyString
  | String c rest =>
    if ascii_eqb c CR then
      match rest with
      | String c' rest' =>
        if ascii_eqb c' LF then String LF (universal_newlines rest')
        else String LF (universal_newlines rest)
      | EmptyString => String LF EmptyString
      end
    else String c (universal_newlines rest)
  end.

(** [open(p, 'r', encoding='utf-8')] followed by [f.read()]: the bytes are
    read first and decoded then. *)
Definition read_file (w : World) (p : string) : World * read_result :=
  let w := log (EvRead p) w in
  match files w !! p with
  | None => (w, ReadFileNotFoundError)
  | Some held =>
    if read_fails w p then (w, ReadOSError)
    else match held with
         | Text text => (w, ReadOk (universal_newlines text))
         | NotUtf8 => (w, ReadUnicodeDecodeError)
         end
  end.

(** [os.remove]; [false] stands for an [OSError]. *)
Definition remove_file (w : World) (p : string) : World * bool :=
  let w := log (EvRemove p) w in
  if remove_fails w p then (w, false)
  else (with_files (delete p (files w)) w, true).

(** ** Path and string helpers of the Python library *)

(** [str.isalnum] on the code points 0-255. *)
Definition isalnum (c : ascii) : bool :=
  let n := Z.of_N (N_of_ascii c) in
  (48 <=? n) && (n <=? 57) || (65 <=? n) && (n <=? 90)
  || (97 <=? n) && (n <=? 122) || (n =? 170) || (178 <=? n) && (n <=? 179)
  || (n =? 181) || (185 <=? n) && (n <=? 186) || (188 <=? n) && (n <=? 190)
  || (192 <=? n) && (n <=? 214) || (216 <=? n) && (n <=? 246)
  || (248 <=? n) && (n <=? 255).

(** [c in s] for a character [c]. *)
Fixpoint char_in (c : ascii) (s : string) : bool :=
  match s with
  | EmptyString => false
  | String x rest => ascii_eqb c x || char_in c rest
  end.

(** [str.rfind] of one character: the last index holding it, or -1. *)
Fixpoint rfind_from (i : Z) (c : ascii) (s : string) (found : Z) : Z :=
  match s with
  | EmptyString => found
  | String x rest => rfind_from (i + 1) c rest (if ascii_eqb x c then i else found)
  end.

Definition rfind (c : ascii) (s : string) : Z := rfind_from 0 c s (-1).

(** The slice [s[a:b]] for [0 <= a]. *)
Definition slice (s : string) (a b : Z) : string :=
  String.substring (Z.to_nat a) (Z.to_nat (b - a)) s.

Definition slice_from (s : string) (a : Z) : string :=
  String.substring (Z.to_nat a) (String.length s) s.

(** [a.endswith("/")]. *)
Fixpoint ends_with_slash (a : string) : bool :=
  match a with
  | EmptyString => false
  | String x EmptyString => ascii_eqb x "/"
  | String _ rest => ends_with_slash rest
  end.

(** [b.startswith("/")]. *)
Definition starts_with_slash (b : string) : bool :=
  match b with
  | EmptyString => false
  | String x _ => ascii_eqb x "/"
  end.

(** [posixpath.join] of two components. *)
Definition path_join (a b : string) : string :=
  if starts_with_slash b then b
  else if negb (truthy a) || ends_with_slash a then a +:+ b
  else a +:+ "/" +:+ b.

(** [posixpath.basename]. *)
Definition basename (p : string) : string := slice_from p (rfind "/" p + 1).

(** First component of [posixpath.splitext]: the extension is what follows
    the last dot of the last path component, unless only dots precede it. *)
Fixpoint all_dots (s : string) : bool :=
  match s with
  | EmptyString => true
  | String x rest => ascii_eqb x "." && all_dots rest
  end.

Definition splitext_root (p : string) : string :=
  let sepIndex := rfind "/" p in
  let dotIndex := rfind "." p in
  if (sepIndex <? dotIndex) && negb (all_dots (slice p (sepIndex + 1) dotIndex))
  then slice p 0 dotIndex else p.

(** ** [backend/database.py] *)

Record Store : Type := mk_Store {
  db : list Article;
  next_id : Z
}.

(** The module as imported: [db = []], [next_id = 1]. *)
Definition initial_store : Store := mk_Store [] 1.

Definition CACHE_EXPIRY : timedelta := minutes 30.
Definition ARCHIVE_DIR : string := "archive".

Inductive exn : Type :=
  | RuntimeError (msg : string)
  | OSError
  | UnicodeDecodeError.

Inductive outcome (A : Type) : Type :=
  | Returns (a : A)
  | Raises (e : exn).
Arguments Returns {A} a.
Arguments Raises {A} e.

(** *** [init_archive] *)

(** What the operating system answers about one file matched by
    [glob("archive/*.md")]: its path, its creation and modification times
    ([None] when [getctime]/[getmtime] raise [OSError]), and the two readings
    of the clock the loop body may take. *)
Record scan_entry : Type := mk_scan_entry {
  se_path : string;
  se_times : option (datetime * datetime);
  se_now_fallback : datetime;
  se_now : datetime
}.

(** What the operating system answers at start-up. *)
Record Archive : Type := mk_Archive {
  dir_exists : bool;
  makedirs_fails : bool;
  md_files : list scan_entry
}.

(** One iteration of [for file_path in md_files]. *)
Definition add_archived (st : Store) (e : scan_entry) : Store :=
  let filename := basename (se_path e) in
  let title := splitext_root filename in
  let '(created_at, updated_at) :=
    match se_times e with
    | Some (c, m) => (c, m)
    | None => (se_now_fallback e, se_now_fallback e)
    end in
  let article :=
    mk_Article (next_id st) title "" created_at updated_at
               (Some (se_path e)) (se_now e) in
  mk_Store (db st ++ [article]) (next_id st + 1).

Definition init_archive (env : Archive) (st : Store) : Store * outcome unit :=
  if negb (dir_exists env) then
    if makedirs_fails env then (st, Raises OSError) else (st, Returns ())
  else (foldl add_archived st (md_files env), Returns ()).

(** *** [get_articles] *)

Record ArticleInfo : Type := mk_ArticleInfo {
  info_id : Z;
  info_title : string;
  info_created_at : datetime;
  info_updated_at : datetime;
  info_is_archived : bool
}.

Definition get_articles (st : Store) : list ArticleInfo :=
  map (λ a, mk_ArticleInfo (id a) (title a) (created_at a) (updated_at a)
                           (truthy_path (file_path a))) (db st).

(** *** [create_new_article] *)

Definition safe_char (c : ascii) : ascii :=
  if isalnum c || char_in c " -_" then c else "_"%char.

Fixpoint safe_title (t : string) : string :=
  match t with
  | EmptyString => EmptyString
  | String c rest => String (safe_char c) (safe_title rest)
  end.

Definition suffixed_filename (safe date_suffix : string) (counter : Z) : string :=
  safe +:+ "_" +:+ date_suffix +:+ "_" +:+ pretty counter +:+ ".md".

(** The loop [while os.path.exists(file_path)]; [fuel] bounds the number of
    iterations, [None] means the bound was reached. *)
Fixpoint free_path (fuel : nat) (w : World) (safe date_suffix : string)
    (counter : Z) (file_path : string) : option string :=
  if path_exists w file_path then
    match fuel with
    | O => None
    | S fuel' =>
      let filename := suffixed_filename safe date_suffix counter in
      free_path fuel' w safe date_suffix (counter + 1)
                (path_join ARCHIVE_DIR filename)
    end
  else Some file_path.

(** The loop leaves at the latest after one iteration per existing file and
    one more; [resolve_path_total] below shows that this bound is never
    reached. *)
Definition resolve_path (w : World) (safe date_suffix : string) : option string :=
  free_path (S (size (files w))) w safe date_suffix 1
            (path_join ARCHIVE_DIR (safe +:+ ".md")).

Definition create_new_article (title content : string) (now : datetime)
    (w : World) (st : Store) : option (World * Store * outcome Article) :=
  let safe := safe_title title in
  let date_suffix := strftime_dmy now in
  match resolve_path w safe date_suffix with
  | None => None
  | Some file_path =>
    let '(w', ok) := write_file w file_path content in
    if ok then
      let article :=
        mk_Article (next_id st) title content now now (Some file_path) now in
      Some (w', mk_Store (db st ++ [article]) (next_id st + 1), Returns article)
    else Some (w', st, Raises (RuntimeError "Failed to save article"))
  end.

(** *** [update_article_db] *)

(** The loop [for article in db] over the remaining articles [l]; the
    articles are mutated in place, so the loop returns the list as it is
    left. *)
Fixpoint update_loop (article_id : Z) (new_title new_content : string)
    (now_updated now_accessed : datetime) (w : World) (l : list Article)
    : World * list Article * outcome (option Article) :=
  match l with
  | [] => (w, [], Returns None)
  | article :: rest =>
    if id article =? article_id then
      let article :=
        set_last_accessed now_accessed
          (set_updated_at now_updated
            (set_content new_content (set_title new_title article))) in
      match file_path article with
      | Some p =>
        if truthy p then
          let '(w', ok) := write_file w p new_content in
          if ok then (w', article :: rest, Returns (Some article))
          else (w', article :: rest,
                Raises (RuntimeError "Failed to update article"))
        else (w, article :: rest, Returns (Some article))
      | None => (w, article :: rest, Returns (Some article))
      end
    else
      let '(w', rest', r) :=
        update_loop article_id new_title new_content now_updated now_accessed
                    w rest in
      (w', article :: rest', r)
  end.

Definition update_article_db (article_id : Z) (new_title new_content : string)
    (now_updated now_accessed : datetime) (w : World) (st : Store)
    : World * Store * outcome (option Article) :=
  let '(w', l, r) :=
    update_loop article_id new_title new_content now_updated now_accessed
                w (db st) in
  (w', mk_Store l (next_id st), r).

(** *** [delete_article_db] *)

(** The loop [for article in db[:]]; [db.remove(article)] takes out the
    article the loop stands on. *)
Fixpoint delete_loop (article_id : Z) (w : World) (l : list Article)
    : World * list Article :=
  match l with
  | [] => (w, [])
  | article :: rest =>
    if id article =? article_id then
      let w' :=
        match file_path article with
        | Some p =>
          if truthy p && path_exists w p then fst (remove_file w p) else w
        | None => w
        end in
      (w', rest)
    else
      let '(w', rest') := delete_loop article_id w rest in
      (w', article :: rest')
  end.

Definition delete_article_db (article_id : Z) (w : World) (st : Store)
    : World * Store :=
  let '(w', l) := delete_loop article_id w (db st) in
  (w', mk_Store l (next_id st)).

(** *** [cleanup_cache] *)

Definition cleanup_article (now : datetime) (article : Article) : Article :=
  if truthy_path (file_path article) && truthy (content article) then
    if CACHE_EXPIRY <? sub now (last_accessed article)
    then set_content "" article else article
  else article.

Definition cleanup_cache (now : datetime) (st : Store) : Store :=
  mk_Store (map (cleanup_article now) (db st)) (next_id st).

(** *** [get_article] *)

(** The two messages left as content when the file cannot be loaded. *)
Definition FILE_MISSING : string := "⚠️ 文章文件丢失，请联系管理员".
Definition LOAD_FAILED : string := "⚠️ 文章加载失败，请稍后再试".

(** The body of [if article.file_path and not article.content]. The two
    [except] clauses take [FileNotFoundError] and any other [OSError]; a
    [UnicodeDecodeError] is a [ValueError] and leaves the function. *)
Definition load_content (w : World) (article : Article)
    : World * outcome Article :=
  match file_path article with
  | Some p =>
    if truthy p && negb (truthy (content article)) then
      let '(w', r) := read_file w p in
      match r with
      | ReadOk text => (w', Returns (set_content text article))
      | ReadFileNotFoundError =>
        (w', Returns (set_content FILE_MISSING article))
      | ReadOSError => (w', Returns (set_content LOAD_FAILED article))
      | ReadUnicodeDecodeError => (w', Raises UnicodeDecodeError)
      end
    else (w, Returns article)
  | None => (w, Returns article)
  end.

(** The loop [for article in db]. When the load raises, the article has
    been assigned neither a content nor a new access time. *)
Fixpoint get_loop (article_id : Z) (now : datetime) (w : World)
    (l : list Article) : World * list Article * outcome (option Article) :=
  match l with
  | [] => (w, [], Returns None)
  | article :: rest =>
    if id article =? article_id then
      let '(w', loaded) := load_content w article in
      match loaded with
      | Returns article =>
        let article := set_last_accessed now article in
        (w', article :: rest, Returns (Some article))
      | Raises e => (w', article :: rest, Raises e)
      end
    else
      let '(w', rest', r) := get_loop article_id now w rest in
      (w', article :: rest', r)
  end.

Definition get_article (article_id : Z) (now : datetime) (w : World)
    (st : Store) : World * Store * outcome (option Article) :=
  let '(w', l, r) := get_loop article_id now w (db st) in
  (w', mk_Store l (next_id st), r).

(** ** A process: the operations a running server performs *)

Inductive op : Type :=
  | OpInit (env : Archive)
  | OpCreate (title content : string) (now : datetime)
  | OpUpdate (article_id : Z) (title content : string)
             (now_updated now_accessed : datetime)
  | OpDelete (article_id : Z)
  | OpGet (article_id : Z) (now : datetime)
  | OpCleanup (now : datetime)
  | OpOutside (disk : gmap string file)
              (write_fails : string → bool)
              (write_leaves : string → option file)
              (read_fails remove_fails : string → bool).

(** One operation; the third component lists the ids the operation has given
    to new articles, oldest first. [OpOutside] is anything else acting on the
    archive directory between two operations. *)
Definition run_op (o : op) (w : World) (st : Store)
    : option (World * Store * list Z) :=
  match o with
  | OpInit env =>
    let st' := fst (init_archive env st) in
    Some (w, st', map id (drop (length (db st)) (db st')))
  | OpCreate t c now =>
    match create_new_article t c now w st with
    | Some (w', st', Returns a) => Some (w', st', [id a])
    | Some (w', st', Raises _) => Some (w', st', [])
    | None => None
    end
  | OpUpdate i t c n1 n2 =>
    let '(w', st', _) := update_article_db i t c n1 n2 w st in Some (w', st', [])
  | OpDelete i =>
    let '(w', st') := delete_article_db i w st in Some (w', st', [])
  | OpGet i now =>
    let '(w', st', _) := get_article i now w st in Some (w', st', [])
  | OpCleanup now => Some (w, cleanup_cache now st, [])
  | OpOutside disk wf wl rf df =>
    Some (mk_World disk wf wl rf df (trace w), st, [])
  end.

Fixpoint run (ops : list op) (w : World) (st : Store)
    : option (World * Store * list Z) :=
  match ops with
  | [] => Some (w, st, [])
  | o :: rest =>
    match run_op o w st with
    | None => None
    | Some (w1, st1, ids1) =>
      match run rest w1 st1 with
      | None => None
      | Some (w2, st2, ids2) => Some (w2, st2, ids1 ++ ids2)
      end
    end
  end.

(** ** [backend/main.py] *)

(** The handlers, as far as they decide what happens to the store and what
    is answered. A rendered page is the name of its template with the values
    handed to it; the routing, the parsing of the form fields and the
    rendering itself are FastAPI's and are not modelled. A handler declared
    with [Depends(validate_admin_key)] is called only after that function
    has returned. [ADMIN_KEY], drawn at random when the module is loaded, and
    the value of the admin cookie (absent: [None]) are arguments. *)

Record TemplateResponse : Type := mk_TemplateResponse {
  template : string;
  ctx_article : option Article;
  ctx_articles : option (list ArticleInfo);
  ctx_action : option string;
  ctx_is_admin : bool
}.

(** How a handler ends other than by returning: with an [HTTPException] of
    its own, or with an exception it does not catch. *)
Inductive failure : Type :=
  | HTTPException (status_code : Z)
  | Uncaught (e : exn).

Inductive reply (A : Type) : Type :=
  | Sends (a : A)
  | Fails (f : failure).
Arguments Sends {A} a.
Arguments Fails {A} f.

Definition validate_admin_key (ADMIN_KEY : string) (admin_key : option string)
    : reply string :=
  match admin_key with
  | Some k => if bool_decide (k = ADMIN_KEY) then Sends k
              else Fails (HTTPException 403)
  | None => Fails (HTTPException 403)
  end.

(** [request.cookies.get(ADMIN_KEY_NAME) == ADMIN_KEY]. *)
Definition is_admin (ADMIN_KEY : string) (cookie : option string) : bool :=
  bool_decide (cookie = Some ADMIN_KEY).

(** The body of [periodic_cleanup], once for every time the sleep ends. *)
Definition periodic_cleanup (wake_ups : list datetime) (st : Store) : Store :=
  foldl (λ st now, cleanup_cache now st) st wake_ups.

Definition list_articles (ADMIN_KEY : string) (cookie : option string)
    (st : Store) : TemplateResponse :=
  mk_TemplateResponse "index.html" None (Some (get_articles st)) None
                      (is_admin ADMIN_KEY cookie).

Definition new_article_form (ADMIN_KEY : string) (cookie : option string)
    : reply TemplateResponse :=
  match validate_admin_key ADMIN_KEY cookie with
  | Fails f => Fails f
  | Sends _ =>
    Sends (mk_TemplateResponse "form.html" None None (Some "/articles") true)
  end.

Definition read_article (ADMIN_KEY : string) (cookie : option string)
    (article_id : Z) (now : datetime) (w : World) (st : Store)
    : World * Store * reply TemplateResponse :=
  let '(w', st', article) := get_article article_id now w st in
  match article with
  | Raises e => (w', st', Fails (Uncaught e))
  | Returns None => (w', st', Fails (HTTPException 404))
  | Returns (Some a) =>
    (w', st',
     Sends (mk_TemplateResponse "article.html" (Some a) None None
                                (is_admin ADMIN_KEY cookie)))
  end.

Definition edit_article_form (ADMIN_KEY : string) (cookie : option string)
    (article_id : Z) (now : datetime) (w : World) (st : Store)
    : World * Store * reply TemplateResponse :=
  match validate_admin_key ADMIN_KEY cookie with
  | Fails f => (w, st, Fails f)
  | Sends _ =>
    let '(w', st', article) := get_article article_id now w st in
    match article with
    | Raises e => (w', st', Fails (Uncaught e))
    | Returns None => (w', st', Fails (HTTPException 404))
    | Returns (Some a) =>
      (w', st',
       Sends (mk_TemplateResponse "form.html" (Some a) None
                (Some ("/articles/" +:+ pretty article_id)) true))
    end
  end.

(** [create_article]; [None] as for [create_new_article]. *)
Definition create_article (ADMIN_KEY : string) (cookie : option string)
    (title content : string) (now : datetime) (w : World) (st : Store)
    : option (World * Store * reply TemplateResponse) :=
  match validate_admin_key ADMIN_KEY cookie with
  | Fails f => Some (w, st, Fails f)
  | Sends _ =>
    match create_new_article title content now w st with
    | None => None
    | Some (w', st', Returns a) =>
      Some (w', st',
            Sends (mk_TemplateResponse "article.html" (Some a) None None true))
    | Some (w', st', Raises _) => Some (w', st', Fails (HTTPException 500))
    end
  end.

Definition update_article (ADMIN_KEY : string) (cookie : option string)
    (article_id : Z) (title content : string)
    (now_updated now_accessed : datetime) (w : World) (st : Store)
    : World * Store * reply TemplateResponse :=
  match validate_admin_key ADMIN_KEY cookie with
  | Fails f => (w, st, Fails f)
  | Sends _ =>
    let '(w', st', r) :=
      update_article_db article_id title content now_updated now_accessed
                        w st in
    match r with
    | Raises e => (w', st', Fails (Uncaught e))
    | Returns None => (w', st', Fails (HTTPException 404))
    | Returns (Some a) =>
      (w', st',
       Sends (mk_TemplateResponse "article.html" (Some a) None None true))
    end
  end.

Definition remove_article (ADMIN_KEY : string) (cookie : option string)
    (article_id : Z) (w : World) (st : Store)
    : World * Store * reply TemplateResponse :=
  match validate_admin_key ADMIN_KEY cookie with
  | Fails f => (w, st, Fails f)
  | Sends _ =>
    let '(w', st') := delete_article_db article_id w st in
    (w', st',
     Sends (mk_TemplateResponse "partials/article_list.html" None
              (Some (get_articles st')) None true))
  end.

(** ** Vocabulary of the statements *)

(** The article an id denotes: the first one of the list that carries it. *)
Definition find_article (article_id : Z) (l : list Article) : option Article :=
  find (λ a, id a =? article_id) l.
Arguments find_article : simpl never.

(** Every id in use is below the counter, and no id is used twice. *)
Definition well_formed (st : Store) : Prop :=
  Forall (λ i, i < next_id st) (map id (db st)) ∧ NoDup (map id (db st)).

Global Instance well_formed_dec st : Decision (well_formed st).
Proof. unfold well_formed. apply _. Defined.

(** An operation that takes no file away from the archive directory. *)
Definition removes_no_file (o : op) : Prop :=
  match o with
  | OpDelete _ | OpOutside _ _ _ _ _ => False
  | _ => True
  end.

(** An article the sweeper clears at [now]: it has a backing file, its
    content is loaded, and its last access lies more than thirty minutes
    back. *)
Definition stale (now : datetime) (a : Article) : bool :=
  truthy_path (file_path a) && truthy (content a)
  && (minutes 30 <? sub now (last_accessed a)).

(** A disk with no file and no failing path. *)
Definition empty_world : World :=
  mk_World ∅ (λ _, false) (λ _, None) (λ _, false) (λ _, false) [].

(** The paths the loop of [create_new_article] tries after the first. *)
Definition candidate (safe date_suffix : string) (counter : Z) : string :=
  path_join ARCHIVE_DIR (suffixed_filename safe date_suffix counter).

(** The list [l] after [f] has been applied, in place, to the article that
    [article_id] denotes. *)
Fixpoint alter_first (f : Article → Article) (article_id : Z)
    (l : list Article) : list Article :=
  match l with
  | [] => []
  | a :: rest =>
    if id a =? article_id then f a :: rest
    else a :: alter_first f article_id rest
  end.

(** The list [l] without the article that [article_id] denotes. *)
Fixpoint remove_first (article_id : Z) (l : list Article) : list Article :=
  match l with
  | [] => []
  | a :: rest =>
    if id a =? article_id then rest else a :: remove_first article_id rest
  end.

(** The attribute assignments of [update_article_db]. *)
Definition updated (new_title new_content : string)
    (now_updated now_accessed : datetime) (a : Article) : Article :=
  mk_Article (id a) new_title new_content (created_at a) now_updated
             (file_path a) now_accessed.

(** The entry of an article in the listing of [get_articles]. *)
Definition article_info (a : Article) : ArticleInfo :=
  mk_ArticleInfo (id a) (title a) (created_at a) (updated_at a)
                 (truthy_path (file_path a)).

(** The article a lookup has returned, if it has returned one. *)
Definition returned (r : outcome (option Article)) : option Article :=
  match r with
  | Returns found => found
  | Raises _ => None
  end.

(** The article a scan registers for an entry of the listing. *)
Definition scanned (e : scan_entry) (a : Article) : Prop :=
  file_path a = Some (se_path e) ∧ content a = "" ∧
  title a = splitext_root (basename (se_path e)) ∧
  last_accessed a = se_now e ∧
  (created_at a, updated_at a)
  = match se_times e with
    | Some times => times
    | None => (se_now_fallback e, se_now_fallback e)
    end.

(** ** Sample data *)

Definition noon : datetime := mk_datetime 2026 11 3 12 0 0 0.
Definition quarter_past : datetime := mk_datetime 2026 11 3 12 15 0 0.
Definition half_past : datetime := mk_datetime 2026 11 3 12 30 0 0.
Definition quarter_to_one : datetime := mk_datetime 2026 11 3 12 45 0 0.
Definition one_o_clock : datetime := mk_datetime 2026 11 3 13 0 0 0.

(** An archive holding [Notes.md], on a disk in working order. *)
Definition healthy_world : World :=
  mk_World {[ "archive/Notes.md" := Text "hello" ]}
           (λ _, false) (λ _, None) (λ _, false) (λ _, false) [].

(** An archive holding [Notes.md] and [Locked.md], on a disk that accepts no
    removal and no write - a write to [Notes.md] fails after the file was
    emptied, any other before the file is opened - and that refuses to hand
    out [Locked.md]. *)
Definition broken_world : World :=
  mk_World {[ "archive/Notes.md" := Text "hello";
              "archive/Locked.md" := Text "secret" ]}
           (λ _, true)
           (λ p, if bool_decide (p = "archive/Notes.md") then Some (Text "")
                 else None)
           (λ p, bool_decide (p = "archive/Locked.md"))
           (λ _, true) [].

(** An archive whose [Notes.md] is no UTF-8 (a file saved in another
    encoding, say), on a disk in working order. *)
Definition garbled_world : World :=
  mk_World {[ "archive/Notes.md" := NotUtf8 ]}
           (λ _, false) (λ _, None) (λ _, false) (λ _, false) [].

(** Two lines as a browser submits them: the first ends in CR LF. *)
Definition two_lines : string := "milk" +:+ String CR (String LF "eggs").

(** The store after [Notes.md] was scanned and read once, at noon. *)
Definition notes_article : Article :=
  mk_Article 1 "Notes" "hello" noon noon (Some "archive/Notes.md") noon.

Definition notes_store : Store := mk_Store [notes_article] 2.

(** A store with a loaded article read at noon, one read at a quarter past,
    and one that was never loaded. *)
Definition mixed_store : Store :=
  mk_Store
    [notes_article;
     mk_Article 2 "Todo" "milk" noon noon (Some "archive/Todo.md") quarter_past;
     mk_Article 3 "Old" "" noon noon (Some "archive/Old.md") noon] 4.

(** The store after a scan found three files; none is loaded yet. *)
Definition scanned_store : Store :=
  mk_Store
    [mk_Article 1 "Notes" "" noon noon (Some "archive/Notes.md") noon;
     mk_Article 2 "Locked" "" noon noon (Some "archive/Locked.md") noon;
     mk_Article 3 "Gone" "" noon noon (Some "archive/Gone.md") noon] 4.

(** The third article after a lookup found its file missing. *)
Definition gone_article : Article :=
  mk_Article 3 "Gone" FILE_MISSING noon noon (Some "archive/Gone.md") noon.

Definition degraded_store : Store := mk_Store [gone_article] 4.

(** What the operating system answers at the start of a process whose
    archive holds [Notes.md] and a file [Old.md] it cannot stat. *)
Definition sample_archive : Archive :=
  mk_Archive true false
    [mk_scan_entry "archive/Notes.md" (Some (noon, noon)) noon noon;
     mk_scan_entry "archive/Old.md" None noon noon].

(** * Properties *)

(** ** Lists of articles *)

Section Lists.

Implicit Types (l : list Article) (a : Article) (i j : Z).

Lemma find_article_nil i : find_article i [] = None.
Proof. reflexivity. Qed.

Lemma find_article_cons i a l :
  find_article i (a :: l) = if id a =? i then Some a else find_article i l.
Proof. reflexivity. Qed.

Lemma find_article_id i a l : find_article i l = Some a → id a = i.
Proof.
  induction l as [|b l IH]; [done|].
  rewrite find_article_cons. destruct (Z.eqb_spec (id b) i); [|done].
  by intros [= <-].
Qed.

Lemma find_article_elem i a l : find_article i l = Some a → a ∈ l.
Proof.
  induction l as [|b l IH]; [done|].
  rewrite find_article_cons. destruct (id b =? i).
  - intros [= <-]. apply list_elem_of_here.
  - intros H. apply list_elem_of_further, IH, H.
Qed.

Lemma find_article_None i l :
  find_article i l = None ↔ i ∉ map id l.
Proof.
  induction l as [|b l IH]; simpl.
  - split; [intros _; apply not_elem_of_nil | done].
  - rewrite find_article_cons, not_elem_of_cons.
    destruct (Z.eqb_spec (id b) i) as [->|Hne].
    + split; [done | by intros [? _]].
    + rewrite IH. split; [by intros ?; split; [congruence|] | by intros [_ ?]].
Qed.

Lemma find_article_app_fresh i a l :
  i ∉ map id l → id a = i → find_article i (l ++ [a]) = Some a.
Proof.
  intros Hfresh Hid. induction l as [|b l IH].
  - change ([] ++ [a]) with [a].
    by rewrite find_article_cons, Hid, Z.eqb_refl.
  - change ((b :: l) ++ [a]) with (b :: (l ++ [a])).
    change (map id (b :: l)) with (id b :: map id l) in Hfresh.
    apply not_elem_of_cons in Hfresh as [Hne Hfresh].
    rewrite find_article_cons.
    destruct (Z.eqb_spec (id b) i); [congruence | auto].
Qed.

Lemma find_article_alter_first f i j l :
  (∀ a, id a = i → id (f a) = i) →
  find_article j (alter_first f i l) =
  if j =? i then f <$> find_article i l else find_article j l.
Proof.
  intros Hf. induction l as [|b l IH]; simpl.
  - by destruct (j =? i).
  - rewrite find_article_cons.
    destruct (Z.eqb_spec (id b) i) as [Hb|Hb].
    + rewrite !find_article_cons, Hf by done.
      destruct (Z.eqb_spec j i) as [->|Hji].
      * by rewrite Z.eqb_refl.
      * destruct (Z.eqb_spec i j); [congruence|].
        destruct (Z.eqb_spec (id b) j); [congruence | done].
    + rewrite find_article_cons, IH, find_article_cons.
      destruct (Z.eqb_spec j i) as [->|Hji].
      * destruct (Z.eqb_spec (id b) i); [congruence | done].
      * done.
Qed.

Lemma alter_first_ids f i l :
  (∀ a, id a = i → id (f a) = i) → map id (alter_first f i l) = map id l.
Proof.
  intros Hf. induction l as [|b l IH]; simpl; [done|].
  destruct (Z.eqb_spec (id b) i) as [Hb|Hb]; simpl.
  - by rewrite Hf, Hb.
  - by rewrite IH.
Qed.

Lemma alter_first_absent f i l :
  find_article i l = None → alter_first f i l = l.
Proof.
  induction l as [|b l IH]; simpl; [done|].
  rewrite find_article_cons. destruct (id b =? i); [done|].
  intros H. by rewrite IH.
Qed.

Lemma remove_first_absent i l : find_article i l = None → remove_first i l = l.
Proof.
  induction l as [|b l IH]; simpl; [done|].
  rewrite find_article_cons. destruct (id b =? i); [done|].
  intros H. by rewrite IH.
Qed.

Lemma remove_first_sublist i l : remove_first i l `sublist_of` l.
Proof.
  induction l as [|b l IH]; simpl; [done|].
  destruct (id b =? i); [by apply sublist_cons | by apply sublist_skip].
Qed.

Lemma find_article_remove_first i j l :
  NoDup (map id l) →
  find_article j (remove_first i l) =
  if j =? i then None else find_article j l.
Proof.
  induction l as [|b l IH]; simpl; intros Hnd.
  - by destruct (j =? i).
  - apply NoDup_cons in Hnd as [Hb Hnd].
    destruct (Z.eqb_spec (id b) i) as [Hbi|Hbi].
    + rewrite find_article_cons.
      destruct (Z.eqb_spec j i) as [->|Hji].
      * apply find_article_None. congruence.
      * destruct (Z.eqb_spec (id b) j); [congruence | done].
    + rewrite !find_article_cons, IH by done.
      destruct (Z.eqb_spec j i) as [->|Hji]; [|done].
      destruct (Z.eqb_spec (id b) i); [congruence | done].
Qed.

End Lists.

(** ** Writes that fail *)

Section FailedWrites.

Implicit Types (w : World) (p q text : string).

Lemma failed_write_trace w p text :
  trace (failed_write w p text) = EvWrite p text :: trace w.
Proof. unfold failed_write. simpl. by destruct (write_leaves w p). Qed.

Lemma failed_write_other w p text q :
  q ≠ p → files (failed_write w p text) !! q = files w !! q.
Proof.
  intros Hq. unfold failed_write. simpl.
  destruct (write_leaves w p); simpl; [by rewrite lookup_insert_ne | done].
Qed.

Lemma failed_write_untouched w p text :
  write_leaves w p = None → files (failed_write w p text) = files w.
Proof. intros H. unfold failed_write. simpl. by rewrite H. Qed.

Lemma failed_write_keeps_files w p text :
  dom (files w) ⊆ dom (files (failed_write w p text)).
Proof.
  unfold failed_write. simpl. destruct (write_leaves w p); simpl; [|done].
  rewrite dom_insert_L. apply union_subseteq_r.
Qed.

End FailedWrites.

(** ** The loops over [db] *)

Section Loops.

Implicit Types (l : list Article) (a : Article) (i j : Z) (w : World).

Lemma set_last_accessed_id t a : id (set_last_accessed t a) = id a.
Proof. reflexivity. Qed.

(** What a load that returns has changed of the article: its content. *)
Lemma load_content_returns w a a' :
  (load_content w a).2 = Returns a' → a' = set_content (content a') a.
Proof.
  unfold load_content. destruct (file_path a) as [p|];
    [|intros [= <-]; by destruct a].
  destruct (truthy p && negb (truthy (content a)));
    [|intros [= <-]; by destruct a].
  destruct (read_file w p) as [w' []]; simpl; by intros [= <-].
Qed.

Lemma load_content_id w a a' :
  (load_content w a).2 = Returns a' → id a' = id a.
Proof. intros ->%load_content_returns. done. Qed.

Lemma load_content_file_path w a a' :
  (load_content w a).2 = Returns a' → file_path a' = file_path a.
Proof. intros ->%load_content_returns. done. Qed.

(** A non-empty content is served as it is: no file operation at all. *)
Lemma load_content_cached w a :
  truthy (content a) = true → load_content w a = (w, Returns a).
Proof.
  intros Hc. unfold load_content. destruct (file_path a) as [p|]; [|done].
  by rewrite Hc, andb_false_r.
Qed.

(** An empty content with a path is read from the disk. *)
Lemma load_content_read w a p :
  file_path a = Some p → truthy p = true → content a = "" →
  load_content w a =
  (log (EvRead p) w,
   match files w !! p with
   | None => Returns (set_content FILE_MISSING a)
   | Some held =>
     if read_fails w p then Returns (set_content LOAD_FAILED a)
     else match held with
          | Text text => Returns (set_content (universal_newlines text) a)
          | NotUtf8 => Raises UnicodeDecodeError
          end
   end).
Proof.
  intros Hp Ht Hc. unfold load_content, read_file. rewrite Hp, Ht, Hc. simpl.
  destruct (files w !! p) as [[text|]|]; [destruct (read_fails w p)..|]; done.
Qed.

(** The load raises in one case only: the content is empty, the file is
    there, the operating system hands it out, and it is no UTF-8. *)
Lemma load_content_raises w a e :
  (load_content w a).2 = Raises e ↔
  e = UnicodeDecodeError ∧ content a = "" ∧
  ∃ p, file_path a = Some p ∧ truthy p = true ∧
       files w !! p = Some NotUtf8 ∧ read_fails w p = false.
Proof.
  split.
  - unfold load_content, read_file. destruct (file_path a) as [p|]; [|done].
    destruct (truthy p) eqn:Hp; [|done]. simpl.
    destruct (content a) as [|x c]; [|done]. simpl.
    destruct (files w !! p) as [[text|]|] eqn:Hf; [| |done];
      destruct (read_fails w p) eqn:Hr; try done.
    intros [= <-]. do 2 (split; [done|]). by exists p.
  - intros (-> & Hc & p & Hp & Ht & Hf & Hr).
    by rewrite (load_content_read w a p), Hf, Hr.
Qed.

Lemma get_loop_absent i now w l :
  find_article i l = None → get_loop i now w l = (w, l, Returns None).
Proof.
  induction l as [|b l IH]; [done|].
  rewrite find_article_cons. simpl. destruct (id b =? i); [done|].
  intros H. by rewrite IH.
Qed.

Lemma get_loop_found i now w l a :
  find_article i l = Some a →
  get_loop i now w l =
  match (load_content w a).2 with
  | Returns a' =>
    ((load_content w a).1,
     alter_first (λ _, set_last_accessed now a') i l,
     Returns (Some (set_last_accessed now a')))
  | Raises e => ((load_content w a).1, l, Raises e)
  end.
Proof.
  induction l as [|b l IH]; [done|].
  rewrite find_article_cons. simpl. destruct (id b =? i).
  - intros [= ->]. by destruct (load_content w a) as [w' [a'|e]].
  - intros H. rewrite IH by done.
    by destruct (load_content w a) as [w' [a'|e]].
Qed.

Lemma update_loop_absent i t c n1 n2 w l :
  find_article i l = None → update_loop i t c n1 n2 w l = (w, l, Returns None).
Proof.
  induction l as [|b l IH]; [done|].
  rewrite find_article_cons. simpl. destruct (id b =? i); [done|].
  intros H. by rewrite IH.
Qed.

Lemma update_loop_found i t c n1 n2 w l a :
  find_article i l = Some a →
  update_loop i t c n1 n2 w l =
  let a' := updated t c n1 n2 a in
  let l' := alter_first (updated t c n1 n2) i l in
  match file_path a with
  | Some p =>
    if truthy p then
      if write_fails w p
      then (failed_write w p c, l',
            Raises (RuntimeError "Failed to update article"))
      else (with_files (<[p := Text c]> (files w)) (log (EvWrite p c) w),
            l', Returns (Some a'))
    else (w, l', Returns (Some a'))
  | None => (w, l', Returns (Some a'))
  end.
Proof.
  induction l as [|b l IH]; [done|].
  rewrite find_article_cons. simpl. destruct (id b =? i).
  - intros [= ->]. unfold write_file. simpl.
    destruct (file_path a) as [p|]; [|done].
    destruct (truthy p); [|done]. by destruct (write_fails w p).
  - intros H. rewrite IH by done. simpl.
    destruct (file_path a) as [p|]; [|done].
    destruct (truthy p); [|done]. by destruct (write_fails w p).
Qed.

Lemma delete_loop_absent i w l :
  find_article i l = None → delete_loop i w l = (w, l).
Proof.
  induction l as [|b l IH]; [done|].
  rewrite find_article_cons. simpl. destruct (id b =? i); [done|].
  intros H. by rewrite IH.
Qed.

Lemma delete_loop_found i w l a :
  find_article i l = Some a →
  delete_loop i w l =
  (match file_path a with
   | Some p => if truthy p && path_exists w p then (remove_file w p).1 else w
   | None => w
   end, remove_first i l).
Proof.
  induction l as [|b l IH]; [done|].
  rewrite find_article_cons. simpl. destruct (id b =? i).
  - by intros [= ->].
  - intros H. by rewrite IH.
Qed.

End Loops.

(** ** File names *)

Section Paths.

Implicit Types (s t x y : string) (c : ascii) (k : Z) (w : World).

Lemma app_String c s t : String c s +:+ t = String c (s +:+ t).
Proof. reflexivity. Qed.

Lemma app_empty_l t : "" +:+ t = t.
Proof. reflexivity. Qed.

Lemma length_app s t :
  String.length (s +:+ t) = (String.length s + String.length t)%nat.
Proof.
  induction s as [|c s IH]; [done|]. rewrite app_String. simpl. by rewrite IH.
Qed.

(** A common ending can be cancelled. *)
Lemma app_inj_r t x y : x +:+ t = y +:+ t → x = y.
Proof.
  revert y. induction x as [|c x IH]; intros [|d y] H.
  - done.
  - apply (f_equal String.length) in H.
    rewrite app_empty_l, app_String in H. simpl in H. rewrite length_app in H. lia.
  - apply (f_equal String.length) in H.
    rewrite app_empty_l, app_String in H. simpl in H. rewrite length_app in H. lia.
  - rewrite !app_String in H. injection H as -> H. f_equal. by apply IH.
Qed.

Lemma safe_char_not_slash c : safe_char c ≠ "/"%char.
Proof.
  unfold safe_char.
  destruct (isalnum c || char_in c " -_") eqn:E; [|done].
  intros ->. vm_compute in E. done.
Qed.

(** A file name built from a sanitised title never starts with the
    separator, whatever follows the title. *)
Lemma safe_title_no_slash t x :
  starts_with_slash x = false → starts_with_slash (safe_title t +:+ x) = false.
Proof.
  intros Hx. destruct t as [|c t]; [done|].
  change (safe_title (String c t) +:+ x)
    with (String (safe_char c) (safe_title t +:+ x)).
  apply bool_decide_eq_false, safe_char_not_slash.
Qed.

Lemma path_join_archive x :
  starts_with_slash x = false → path_join ARCHIVE_DIR x = "archive/" +:+ x.
Proof. intros Hx. unfold path_join. by rewrite Hx. Qed.

Lemma suffixed_no_slash t date_suffix k :
  starts_with_slash (suffixed_filename (safe_title t) date_suffix k) = false.
Proof. unfold suffixed_filename. by apply safe_title_no_slash. Qed.

(** The shape of the names tried after the plain one:
    [archive/<title>_<ddmmyy>_<counter>.md]. *)
Lemma candidate_shape t date_suffix k :
  candidate (safe_title t) date_suffix k =
  "archive/" +:+ safe_title t +:+ "_" +:+ date_suffix +:+ "_"
             +:+ pretty k +:+ ".md".
Proof.
  unfold candidate. by rewrite path_join_archive by apply suffixed_no_slash.
Qed.

(** Different counters give different names. *)
Lemma candidate_inj t date_suffix k1 k2 :
  candidate (safe_title t) date_suffix k1 =
  candidate (safe_title t) date_suffix k2 → k1 = k2.
Proof.
  rewrite !candidate_shape. intros H.
  do 5 apply String.app_inj in H.
  by apply app_inj_r, (inj pretty) in H.
Qed.

Lemma path_exists_true w x : path_exists w x = true ↔ x ∈ dom (files w).
Proof. unfold path_exists. by rewrite bool_decide_eq_true, elem_of_dom. Qed.

Lemma path_exists_false w x : path_exists w x = false ↔ files w !! x = None.
Proof.
  unfold path_exists. by rewrite bool_decide_eq_false, eq_None_not_Some.
Qed.

(** What the loop returns is free, and it is either the name the loop
    started on or the first free one among the names that follow. *)
Lemma free_path_Some fuel w t date_suffix k x y :
  free_path fuel w (safe_title t) date_suffix k x = Some y →
  path_exists w y = false ∧
  (y = x ∨
   path_exists w x = true ∧
   ∃ j, k ≤ j ∧ y = candidate (safe_title t) date_suffix j ∧
        ∀ i, k ≤ i < j →
             path_exists w (candidate (safe_title t) date_suffix i) = true).
Proof.
  revert k x. induction fuel as [|fuel IH]; intros k x; simpl.
  - destruct (path_exists w x) eqn:E; [done|]. intros [= <-]. auto.
  - destruct (path_exists w x) eqn:E; [|intros [= <-]; auto].
    intros H. apply IH in H as [Hy Hcase]. split; [done|]. right.
    split; [done|]. fold (candidate (safe_title t) date_suffix k) in Hcase.
    destruct Hcase as [->|[Hk (j & Hj & -> & Hbelow)]].
    + exists k. split; [lia|]. split; [done|]. intros i Hi. lia.
    + exists j. split; [lia|]. split; [done|]. intros i Hi.
      destruct (decide (i = k)) as [->|]; [done|]. apply Hbelow. lia.
Qed.

(** When the loop runs out of iterations, as many different files exist. *)
Lemma free_path_None fuel w t date_suffix k x :
  free_path fuel w (safe_title t) date_suffix k x = None →
  path_exists w x = true ∧
  ∃ X : gset string,
    size X = fuel ∧ X ⊆ dom (files w) ∧
    ∀ y, y ∈ X → ∃ j, k ≤ j ∧ y = candidate (safe_title t) date_suffix j.
Proof.
  revert k x. induction fuel as [|fuel IH]; intros k x; simpl.
  - destruct (path_exists w x) eqn:E; [|done]. intros _. split; [done|].
    exists ∅. split; [done|]. split; [apply empty_subseteq|].
    intros y Hy. by apply not_elem_of_empty in Hy.
  - destruct (path_exists w x) eqn:E; [|done].
    fold (candidate (safe_title t) date_suffix k).
    intros H. apply IH in H as (Hk & X & Hsize & Hsub & Hall).
    split; [done|].
    exists ({[candidate (safe_title t) date_suffix k]} ∪ X).
    assert (candidate (safe_title t) date_suffix k ∉ X) as Hnotin.
    { intros (j & Hj & Heq)%Hall. apply candidate_inj in Heq. lia. }
    split; [|split].
    + rewrite size_union by (by apply disjoint_singleton_l).
      rewrite size_singleton. lia.
    + apply path_exists_true in Hk.
      apply union_subseteq. split; [by apply singleton_subseteq_l | done].
    + intros y [->%elem_of_singleton|Hy]%elem_of_union.
      * exists k. split; [lia | done].
      * apply Hall in Hy as (j & Hj & ->). exists j. split; [lia | done].
Qed.

(** The loop of [create_new_article] always ends: one iteration more than
    there are files is never needed. *)
Lemma resolve_path_total w t date_suffix :
  is_Some (resolve_path w (safe_title t) date_suffix).
Proof.
  unfold resolve_path.
  destruct (free_path _ _ _ _ _ _) as [y|] eqn:E; [by eexists|].
  apply free_path_None in E as (_ & X & Hsize & Hsub & _).
  apply subseteq_size in Hsub. rewrite size_dom in Hsub. lia.
Qed.

End Paths.

(** ** The operations, one by one *)

Section Operations.

Implicit Types (l : list Article) (a : Article) (i j : Z) (w : World)
  (st : Store).

(** [create_new_article] in one equation: the name it settles on is free,
    and the store changes only when the write goes through. *)
Lemma create_new_article_eq t c now w st :
  ∃ p,
    resolve_path w (safe_title t) (strftime_dmy now) = Some p ∧
    files w !! p = None ∧
    create_new_article t c now w st =
    Some
      (if write_fails w p
       then (failed_write w p c, st,
             Raises (RuntimeError "Failed to save article"))
       else
         let article := mk_Article (next_id st) t c now now (Some p) now in
         (with_files (<[p := Text c]> (files w)) (log (EvWrite p c) w),
          mk_Store (db st ++ [article]) (next_id st + 1),
          Returns article)).
Proof.
  destruct (resolve_path_total w t (strftime_dmy now)) as [p Hp].
  exists p. split; [done|]. split.
  - apply free_path_Some in Hp as [Hfree _]. by apply path_exists_false.
  - unfold create_new_article. rewrite Hp. unfold write_file. simpl.
    by destruct (write_fails w p).
Qed.

(** [create_new_article] always returns or raises. *)
Lemma create_new_article_total t c now w st :
  is_Some (create_new_article t c now w st).
Proof.
  destruct (create_new_article_eq t c now w st) as (p & _ & _ & ->).
  by eexists.
Qed.

Lemma get_article_absent i now w st :
  find_article i (db st) = None →
  get_article i now w st = (w, st, Returns None).
Proof.
  intros H. unfold get_article. rewrite get_loop_absent by done.
  by destruct st.
Qed.

Lemma get_article_found i now w st a :
  find_article i (db st) = Some a →
  get_article i now w st =
  match (load_content w a).2 with
  | Returns a' =>
    ((load_content w a).1,
     mk_Store (alter_first (λ _, set_last_accessed now a') i (db st))
              (next_id st),
     Returns (Some (set_last_accessed now a')))
  | Raises e => ((load_content w a).1, st, Raises e)
  end.
Proof.
  intros H. unfold get_article. rewrite (get_loop_found _ _ _ _ a) by done.
  destruct (load_content w a).2; [done|]. by destruct st.
Qed.

Lemma get_article_returns i now w st a a' :
  find_article i (db st) = Some a →
  (load_content w a).2 = Returns a' →
  get_article i now w st =
  ((load_content w a).1,
   mk_Store (alter_first (λ _, set_last_accessed now a') i (db st))
            (next_id st),
   Returns (Some (set_last_accessed now a'))).
Proof. intros H Hl. by rewrite (get_article_found _ _ _ _ a), Hl. Qed.

Lemma get_article_raises i now w st a e :
  find_article i (db st) = Some a →
  (load_content w a).2 = Raises e →
  get_article i now w st = ((load_content w a).1, st, Raises e).
Proof. intros H Hl. by rewrite (get_article_found _ _ _ _ a), Hl. Qed.

(** A load touches no file; it attempts at most one operation, a read. *)
Lemma load_content_files w a : files (load_content w a).1 = files w.
Proof.
  unfold load_content. destruct (file_path a) as [p|]; [|done].
  destruct (truthy p && negb (truthy (content a))); [|done].
  unfold read_file. simpl.
  by destruct (files w !! p) as [[text|]|]; [destruct (read_fails w p)..|].
Qed.

Lemma load_content_trace w a :
  trace (load_content w a).1 = trace w ∨
  ∃ p, trace (load_content w a).1 = EvRead p :: trace w.
Proof.
  unfold load_content. destruct (file_path a) as [p|]; [|by left].
  destruct (truthy p && negb (truthy (content a))); [|by left].
  right. exists p. unfold read_file. simpl.
  by destruct (files w !! p) as [[text|]|]; [destruct (read_fails w p)..|].
Qed.

(** Whether it returns or raises, a lookup leaves the files, the counter
    and the ids of the articles as they are. *)
Lemma get_article_files i now w st :
  files (get_article i now w st).1.1 = files w.
Proof.
  destruct (find_article i (db st)) as [a|] eqn:Hf.
  - rewrite (get_article_found _ _ _ _ a) by done.
    destruct (load_content w a).2; apply load_content_files.
  - by rewrite get_article_absent.
Qed.

Lemma get_article_next_id i now w st :
  next_id (get_article i now w st).1.2 = next_id st.
Proof.
  unfold get_article. by destruct (get_loop i now w (db st)) as [[w1 l] r].
Qed.

Lemma get_article_ids i now w st :
  map id (db (get_article i now w st).1.2) = map id (db st).
Proof.
  destruct (find_article i (db st)) as [a|] eqn:Hf.
  - rewrite (get_article_found _ _ _ _ a) by done.
    destruct (load_content w a).2 as [a'|e] eqn:Hl; [|done]. simpl.
    apply alter_first_ids. intros b _.
    rewrite set_last_accessed_id, (load_content_id _ _ _ Hl).
    by eapply find_article_id.
  - by rewrite get_article_absent.
Qed.

Lemma delete_article_db_absent i w st :
  find_article i (db st) = None → delete_article_db i w st = (w, st).
Proof.
  intros H. unfold delete_article_db. rewrite delete_loop_absent by done.
  by destruct st.
Qed.

Lemma delete_article_db_found i w st a :
  find_article i (db st) = Some a →
  delete_article_db i w st =
  (match file_path a with
   | Some p => if truthy p && path_exists w p then (remove_file w p).1 else w
   | None => w
   end, mk_Store (remove_first i (db st)) (next_id st)).
Proof.
  intros H. unfold delete_article_db. by rewrite (delete_loop_found _ _ _ a).
Qed.

Lemma cleanup_article_id now a : id (cleanup_article now a) = id a.
Proof.
  unfold cleanup_article.
  destruct (truthy_path (file_path a) && truthy (content a)); [|done].
  by destruct (CACHE_EXPIRY <? sub now (last_accessed a)).
Qed.

Lemma cleanup_cache_ids now st :
  map id (db (cleanup_cache now st)) = map id (db st).
Proof.
  simpl. rewrite map_map. apply map_ext. intros a. apply cleanup_article_id.
Qed.

Lemma find_article_cleanup i now l :
  find_article i (map (cleanup_article now) l) =
  cleanup_article now <$> find_article i l.
Proof.
  induction l as [|b l IH]; [done|]. simpl.
  rewrite !find_article_cons, cleanup_article_id.
  by destruct (id b =? i).
Qed.

End Operations.

(** ** Ids in use stay below the counter *)

Section Invariant.

Implicit Types (l : list Article) (a : Article) (i j : Z) (w : World)
  (st : Store).

Lemma well_formed_initial : well_formed initial_store.
Proof. split; [constructor | apply NoDup_nil_2]. Qed.

Lemma well_formed_fresh st i :
  well_formed st → next_id st ≤ i → i ∉ map id (db st).
Proof.
  intros [Hlt _] Hi Hin. rewrite Forall_forall in Hlt.
  apply Hlt in Hin. lia.
Qed.

Lemma well_formed_append st a :
  well_formed st → id a = next_id st →
  well_formed (mk_Store (db st ++ [a]) (next_id st + 1)).
Proof.
  intros Hwf Hid. pose proof (well_formed_fresh st (id a) Hwf) as Hfresh.
  destruct Hwf as [Hlt Hnd]. split; simpl; rewrite map_app; simpl.
  - apply Forall_app. split.
    + eapply Forall_impl; [exact Hlt|]. simpl. lia.
    + repeat constructor. lia.
  - apply NoDup_app. split; [done|]. split; [|apply NoDup_singleton].
    intros x Hx ->%list_elem_of_singleton. apply Hfresh; [lia | done].
Qed.

Lemma well_formed_same_ids st l :
  well_formed st → map id l = map id (db st) →
  well_formed (mk_Store l (next_id st)).
Proof. intros [Hlt Hnd] Heq. split; simpl; by rewrite Heq. Qed.

Lemma remove_first_ids_sublist i l :
  map id (remove_first i l) `sublist_of` map id l.
Proof.
  induction l as [|b l IH]; simpl; [done|].
  destruct (id b =? i); simpl; [by apply sublist_cons | by apply sublist_skip].
Qed.

Lemma well_formed_remove st i :
  well_formed st → well_formed (mk_Store (remove_first i (db st)) (next_id st)).
Proof.
  intros [Hlt Hnd]. pose proof (remove_first_ids_sublist i (db st)) as Hsub.
  split; simpl.
  - rewrite Forall_forall in Hlt |- *. intros x Hx. apply Hlt.
    by eapply elem_of_sublist.
  - by eapply sublist_NoDup.
Qed.

Lemma add_archived_eq st e :
  ∃ a, id a = next_id st ∧
       add_archived st e = mk_Store (db st ++ [a]) (next_id st + 1).
Proof.
  unfold add_archived.
  destruct (se_times e) as [[c m]|]; (eexists; split; [|reflexivity]; done).
Qed.

(** The scan appends one article per file and numbers them from the
    counter on, in the order of the listing. *)
Lemma scan_eq es st :
  ∃ added,
    db (foldl add_archived st es) = db st ++ added ∧
    next_id (foldl add_archived st es) = next_id st + Z.of_nat (length es) ∧
    map id added = seqZ (next_id st) (Z.of_nat (length es)).
Proof.
  revert st. induction es as [|e es IH]; intros st.
  - exists []. simpl. split; [by rewrite app_nil_r|]. split; [lia | done].
  - destruct (add_archived_eq st e) as (a & Hid & Heq).
    destruct (IH (add_archived st e)) as (added & Hdb & Hnext & Hids).
    exists (a :: added). simpl foldl. rewrite Hdb, Hnext, Heq. simpl.
    split; [by rewrite <- app_assoc|]. split; [lia|].
    rewrite Heq in Hids. simpl in Hids. rewrite Hids, Hid.
    replace (Z.of_nat (S (length es))) with (Z.succ (Z.of_nat (length es)))
      by lia.
    rewrite (seqZ_cons (next_id st)) by lia. do 2 f_equal; lia.
Qed.

Lemma scan_well_formed es st :
  well_formed st → well_formed (foldl add_archived st es).
Proof.
  revert st. induction es as [|e es IH]; intros st Hwf; [done|].
  simpl. apply IH. destruct (add_archived_eq st e) as (a & Hid & ->).
  by apply well_formed_append.
Qed.

Lemma run_op_well_formed o w st w' st' ids :
  well_formed st → run_op o w st = Some (w', st', ids) → well_formed st'.
Proof.
  intros Hwf. destruct o as [env|t c now|i t c n1 n2|i|i now|now|m f1 f2 f3 f4];
    simpl.
  - intros [= _ <- _]. unfold init_archive.
    destruct (negb (dir_exists env)); [by destruct (makedirs_fails env)|].
    by apply scan_well_formed.
  - destruct (create_new_article_eq t c now w st) as (p & _ & _ & ->).
    destruct (write_fails w p); intros [= _ <- _]; [done|].
    by apply well_formed_append.
  - unfold update_article_db.
    destruct (update_loop i t c n1 n2 w (db st)) as [[w1 l] r] eqn:E.
    intros [= _ <- _]. apply well_formed_same_ids; [done|].
    destruct (find_article i (db st)) as [a|] eqn:Hf.
    + rewrite (update_loop_found _ _ _ _ _ _ _ a) in E by done. simpl in E.
      assert (l = alter_first (updated t c n1 n2) i (db st)) as ->.
      { destruct (file_path a) as [p|]; [destruct (truthy p);
          [destruct (write_fails w p)|]|]; congruence. }
      by apply alter_first_ids.
    + rewrite update_loop_absent in E by done. congruence.
  - unfold delete_article_db.
    destruct (delete_loop i w (db st)) as [w1 l] eqn:E.
    intros [= _ <- _].
    destruct (find_article i (db st)) as [a|] eqn:Hf.
    + rewrite (delete_loop_found _ _ _ a) in E by done.
      injection E as _ <-. by apply well_formed_remove.
    + rewrite delete_loop_absent in E by done.
      injection E as _ <-. by destruct st.
  - pose proof (get_article_ids i now w st) as Hids.
    pose proof (get_article_next_id i now w st) as Hnext.
    destruct (get_article i now w st) as [[w1 [l n]] r]. simpl in *.
    intros [= _ <- _]. subst n. by apply well_formed_same_ids.
  - intros [= _ <- _]. apply well_formed_same_ids; [done|].
    apply cleanup_cache_ids.
  - by intros [= _ <- _].
Qed.

Lemma run_well_formed ops w st w' st' ids :
  well_formed st → run ops w st = Some (w', st', ids) → well_formed st'.
Proof.
  revert w st ids. induction ops as [|o ops IH]; intros w st ids Hwf; simpl.
  - by intros [= _ <- _].
  - destruct (run_op o w st) as [[[w1 st1] ids1]|] eqn:E1; [|done].
    destruct (run ops w1 st1) as [[[w2 st2] ids2]|] eqn:E2; [|done].
    intros [= <- <- <-]. eapply IH; [|exact E2].
    by eapply run_op_well_formed.
Qed.

(** Every store a process can reach is well formed. *)
Lemma reachable_well_formed ops w w' st' ids :
  run ops w initial_store = Some (w', st', ids) → well_formed st'.
Proof. apply run_well_formed, well_formed_initial. Qed.

(** The ids an operation hands out are the numbers the counter passes. *)
Lemma run_op_issued o w st w' st' ids :
  run_op o w st = Some (w', st', ids) →
  next_id st ≤ next_id st' ∧
  ids = seqZ (next_id st) (next_id st' - next_id st).
Proof.
  destruct o as [env|t c now|i t c n1 n2|i|i now|now|m f1 f2 f3 f4]; simpl.
  - intros [= _ <- <-]. unfold init_archive.
    destruct (negb (dir_exists env)).
    + assert ((if makedirs_fails env
               then (st, Raises OSError) else (st, Returns ())).1 = st) as ->
        by by destruct (makedirs_fails env).
      rewrite drop_all, Z.sub_diag. split; [lia | done].
    + simpl. destruct (scan_eq (md_files env) st) as (added & -> & -> & Hids).
      rewrite drop_app_length, Hids. split; [lia|]. f_equal. lia.
  - destruct (create_new_article_eq t c now w st) as (p & _ & _ & ->).
    destruct (write_fails w p); intros [= _ <- <-]; simpl.
    + rewrite Z.sub_diag. split; [lia | done].
    + split; [lia|]. by replace (next_id st + 1 - next_id st) with 1 by lia.
  - unfold update_article_db.
    destruct (update_loop i t c n1 n2 w (db st)) as [[w1 l] r].
    intros [= _ <- <-]. simpl. rewrite Z.sub_diag. split; [lia | done].
  - unfold delete_article_db. destruct (delete_loop i w (db st)) as [w1 l].
    intros [= _ <- <-]. simpl. rewrite Z.sub_diag. split; [lia | done].
  - unfold get_article. destruct (get_loop i now w (db st)) as [[w1 l] r].
    intros [= _ <- <-]. simpl. rewrite Z.sub_diag. split; [lia | done].
  - intros [= _ <- <-]. simpl. rewrite Z.sub_diag. split; [lia | done].
  - intros [= _ <- <-]. rewrite Z.sub_diag. split; [lia | done].
Qed.

Lemma run_issued ops w st w' st' ids :
  run ops w st = Some (w', st', ids) →
  next_id st ≤ next_id st' ∧
  ids = seqZ (next_id st) (next_id st' - next_id st).
Proof.
  revert w st ids. induction ops as [|o ops IH]; intros w st ids; simpl.
  - intros [= _ <- <-]. rewrite Z.sub_diag. split; [lia | done].
  - destruct (run_op o w st) as [[[w1 st1] ids1]|] eqn:E1; [|done].
    destruct (run ops w1 st1) as [[[w2 st2] ids2]|] eqn:E2; [|done].
    intros [= <- <- <-].
    apply run_op_issued in E1 as [Hle1 ->]. apply IH in E2 as [Hle2 ->].
    split; [lia|].
    replace (next_id st2 - next_id st)
      with ((next_id st1 - next_id st) + (next_id st2 - next_id st1)) by lia.
    rewrite seqZ_app by lia. do 2 f_equal. lia.
Qed.

Lemma run_op_total o w st : is_Some (run_op o w st).
Proof.
  destruct o as [env|t c now|i t c n1 n2|i|i now|now|m f1 f2 f3 f4]; simpl;
    try by eexists.
  - destruct (create_new_article_eq t c now w st) as (p & _ & _ & ->).
    destruct (write_fails w p); by eexists.
  - destruct (update_article_db i t c n1 n2 w st) as [[w1 st1] r]. by eexists.
  - destruct (delete_article_db i w st) as [w1 st1]. by eexists.
  - destruct (get_article i now w st) as [[w1 st1] r]. by eexists.
Qed.

Lemma run_total ops w st : is_Some (run ops w st).
Proof.
  revert w st. induction ops as [|o ops IH]; intros w st; simpl; [by eexists|].
  destruct (run_op_total o w st) as [[[w1 st1] ids1] ->].
  destruct (IH w1 st1) as [[[w2 st2] ids2] ->]. by eexists.
Qed.

(** An operation keeps some of the ids in use, in their order, and adds the
    ids it hands out at the end. *)
Lemma run_op_ids o w st w' st' ids :
  run_op o w st = Some (w', st', ids) →
  ∃ kept, kept `sublist_of` map id (db st) ∧ map id (db st') = kept ++ ids.
Proof.
  destruct o as [env|t c now|i t c n1 n2|i|i now|now|m f1 f2 f3 f4]; simpl.
  - intros [= _ <- <-]. exists (map id (db st)). split; [done|].
    unfold init_archive. destruct (negb (dir_exists env)).
    + assert ((if makedirs_fails env
               then (st, Raises OSError) else (st, Returns ())).1 = st) as ->
        by by destruct (makedirs_fails env).
      by rewrite drop_all, app_nil_r.
    + simpl. destruct (scan_eq (md_files env) st) as (added & -> & _ & _).
      by rewrite drop_app_length, map_app.
  - destruct (create_new_article_eq t c now w st) as (p & _ & _ & ->).
    destruct (write_fails w p); intros [= _ <- <-];
      (exists (map id (db st)); split; [done|]); simpl.
    + by rewrite app_nil_r.
    + by rewrite map_app.
  - unfold update_article_db.
    destruct (update_loop i t c n1 n2 w (db st)) as [[w1 l] r] eqn:E.
    intros [= _ <- <-]. exists (map id (db st)). split; [done|].
    rewrite app_nil_r. simpl.
    destruct (find_article i (db st)) as [a|] eqn:Hf.
    + rewrite (update_loop_found _ _ _ _ _ _ _ a) in E by done. simpl in E.
      assert (l = alter_first (updated t c n1 n2) i (db st)) as ->.
      { destruct (file_path a) as [p|]; [destruct (truthy p);
          [destruct (write_fails w p)|]|]; congruence. }
      by apply alter_first_ids.
    + rewrite update_loop_absent in E by done. congruence.
  - unfold delete_article_db.
    destruct (delete_loop i w (db st)) as [w1 l] eqn:E.
    intros [= _ <- <-]. exists (map id l). rewrite app_nil_r. split; [|done].
    destruct (find_article i (db st)) as [a|] eqn:Hf.
    + rewrite (delete_loop_found _ _ _ a) in E by done.
      injection E as _ <-. apply remove_first_ids_sublist.
    + rewrite delete_loop_absent in E by done. by injection E as _ <-.
  - pose proof (get_article_ids i now w st) as Hids.
    destruct (get_article i now w st) as [[w1 st1] r].
    intros [= _ <- <-]. exists (map id (db st)). split; [done|].
    by rewrite app_nil_r.
  - intros [= _ <- <-]. exists (map id (db st)). split; [done|].
    by rewrite app_nil_r, cleanup_cache_ids.
  - intros [= _ <- <-]. exists (map id (db st)). split; [done|].
    by rewrite app_nil_r.
Qed.

(** An id below the counter that no article carries is never carried
    again. *)
Lemma run_op_stays_absent o w st w' st' ids i :
  i < next_id st → i ∉ map id (db st) →
  run_op o w st = Some (w', st', ids) →
  i < next_id st' ∧ i ∉ map id (db st').
Proof.
  intros Hlt Habsent Hrun.
  destruct (run_op_issued _ _ _ _ _ _ Hrun) as [Hle Hids].
  destruct (run_op_ids _ _ _ _ _ _ Hrun) as (kept & Hsub & ->).
  split; [lia|]. intros [Hin|Hin]%elem_of_app.
  - apply Habsent. by eapply elem_of_sublist.
  - rewrite Hids in Hin. apply elem_of_seqZ in Hin. lia.
Qed.

Lemma run_stays_absent ops w st w' st' ids i :
  i < next_id st → i ∉ map id (db st) →
  run ops w st = Some (w', st', ids) →
  i < next_id st' ∧ i ∉ map id (db st').
Proof.
  revert w st ids. induction ops as [|o ops IH]; intros w st ids Hlt Habsent;
    simpl.
  - by intros [= _ <- _].
  - destruct (run_op o w st) as [[[w1 st1] ids1]|] eqn:E1; [|done].
    destruct (run ops w1 st1) as [[[w2 st2] ids2]|] eqn:E2; [|done].
    intros [= <- <- <-].
    destruct (run_op_stays_absent _ _ _ _ _ _ i Hlt Habsent E1) as [Hlt1 Hab1].
    by eapply IH.
Qed.

(** Without deletions and without interference from outside, the files on
    the disk only become more. *)
Lemma run_op_keeps_files o w st w' st' ids :
  removes_no_file o → run_op o w st = Some (w', st', ids) →
  dom (files w) ⊆ dom (files w').
Proof.
  destruct o as [env|t c now|i t c n1 n2|i|i now|now|m f1 f2 f3 f4]; simpl;
    try done.
  - by intros _ [= <- _ _].
  - intros _. destruct (create_new_article_eq t c now w st) as (p & _ & _ & ->).
    destruct (write_fails w p); intros [= <- _ _]; simpl;
      [apply failed_write_keeps_files|].
    rewrite dom_insert_L. apply union_subseteq_r.
  - intros _. unfold update_article_db.
    destruct (find_article i (db st)) as [a|] eqn:Hf.
    + rewrite (update_loop_found _ _ _ _ _ _ _ a) by done. simpl.
      destruct (file_path a) as [p|]; [destruct (truthy p);
        [destruct (write_fails w p)|]|]; intros [= <- _ _]; simpl; try done.
      * apply failed_write_keeps_files.
      * rewrite dom_insert_L. apply union_subseteq_r.
    + rewrite update_loop_absent by done. by intros [= <- _ _].
  - intros _. pose proof (get_article_files i now w st) as Hfiles.
    destruct (get_article i now w st) as [[w1 st1] r].
    intros [= <- _ _]. simpl in Hfiles. by rewrite Hfiles.
  - by intros _ [= <- _ _].
Qed.

Lemma run_keeps_files ops w st w' st' ids :
  Forall removes_no_file ops → run ops w st = Some (w', st', ids) →
  dom (files w) ⊆ dom (files w').
Proof.
  intros Hops. revert w st ids.
  induction Hops as [|o ops Ho Hops IH]; intros w st ids; simpl.
  - by intros [= <- _ _].
  - destruct (run_op o w st) as [[[w1 st1] ids1]|] eqn:E1; [|done].
    destruct (run ops w1 st1) as [[[w2 st2] ids2]|] eqn:E2; [|done].
    intros [= <- <- <-]. etrans.
    + by eapply run_op_keeps_files.
    + by eapply IH.
Qed.

Lemma seqZ_strictly_increasing m n : StronglySorted Z.lt (seqZ m n).
Proof.
  destruct (decide (n ≤ 0)) as [Hn|Hn]; [rewrite seqZ_nil by done; constructor|].
  rewrite <- (Z2Nat.id n) by lia. generalize (Z.to_nat n) as k. clear n Hn.
  intros k. revert m. induction k as [|k IH]; intros m; [constructor|].
  rewrite seqZ_cons by lia. apply SSorted_cons.
  - replace (Z.pred (Z.of_nat (S k))) with (Z.of_nat k) by lia. apply IH.
  - apply Forall_seqZ. lia.
Qed.

End Invariant.

(** ** Further facts the claims rest on *)

Section Facts.

Implicit Types (l : list Article) (a : Article) (i j : Z) (w : World)
  (st : Store).

(** The plain name of a title is taken once an article was created under
    that title. *)
Lemma plain_name_taken_after_create t c now w st w1 st1 a :
  create_new_article t c now w st = Some (w1, st1, Returns a) →
  path_exists w1 (path_join ARCHIVE_DIR (safe_title t +:+ ".md")) = true.
Proof.
  destruct (create_new_article_eq t c now w st) as (p & Hp & _ & ->).
  destruct (write_fails w p); [done|]. intros [= <- <- <-].
  apply path_exists_true. simpl. rewrite dom_insert_L.
  apply free_path_Some in Hp as [_ [->|[Hplain _]]].
  - apply elem_of_union_l. by apply elem_of_singleton.
  - apply elem_of_union_r. by apply path_exists_true.
Qed.

Lemma truthy_spec s : truthy s = true ↔ s ≠ "".
Proof. by destruct s. Qed.

(** [stale] in words. *)
Lemma stale_spec now a :
  stale now a = true ↔
  (∃ p, file_path a = Some p ∧ p ≠ "") ∧ content a ≠ "" ∧
  timedelta_of 0 1800 0 < sub now (last_accessed a).
Proof.
  unfold stale. rewrite !andb_true_iff, Z.ltb_lt, !truthy_spec.
  change (minutes 30) with (timedelta_of 0 1800 0).
  destruct (file_path a) as [p|]; simpl; rewrite ?truthy_spec.
  - split; [intros [[? ?] ?]; eauto | intros [(q & [= <-] & ?) [? ?]]; auto].
  - split; [by intros [[? ?] ?] | by intros [(q & ? & ?) _]].
Qed.

Lemma cleanup_article_stale now a :
  cleanup_article now a = if stale now a then set_content "" a else a.
Proof.
  unfold cleanup_article, stale.
  destruct (truthy_path (file_path a) && truthy (content a)); [|done].
  change CACHE_EXPIRY with (minutes 30).
  by destruct (minutes 30 <? sub now (last_accessed a)).
Qed.

Lemma cleanup_article_idempotent now a :
  cleanup_article now (cleanup_article now a) = cleanup_article now a.
Proof.
  rewrite !cleanup_article_stale. destruct (stale now a) eqn:E; [|by rewrite E].
  unfold stale. simpl. by rewrite andb_false_r.
Qed.

(** A second run at a later reading of the clock still changes nothing, as
    long as no article has become stale in between. *)
Lemma second_sweep_changes_nothing now now' st :
  (∀ a, a ∈ db st → stale now' a = true → stale now a = true) →
  cleanup_cache now' (cleanup_cache now st) = cleanup_cache now st.
Proof.
  intros Hnone. unfold cleanup_cache. simpl. f_equal. rewrite map_map.
  apply map_ext_in. intros a Ha%list_elem_of_In.
  rewrite !cleanup_article_stale.
  destruct (stale now a) eqn:E.
  - unfold stale. simpl. by rewrite andb_false_r.
  - destruct (stale now' a) eqn:E'; [|done].
    apply Hnone in E'; [congruence | done].
Qed.

(** A loaded content is served as it is, and the world is not touched. *)
Lemma cached_lookup i now w st a :
  find_article i (db st) = Some a →
  truthy (content a) = true →
  get_article i now w st
  = (w,
     mk_Store (alter_first (λ _, set_last_accessed now a) i (db st))
              (next_id st),
     Returns (Some (set_last_accessed now a))).
Proof.
  intros Hfind Hc. rewrite (get_article_found _ _ _ _ a) by done.
  by rewrite load_content_cached.
Qed.

(** Any number of lookups of a loaded article leave the world untouched and
    the content in place. *)
Lemma repeated_lookups i times w st a :
  find_article i (db st) = Some a →
  truthy (content a) = true →
  ∃ st' a',
    run (map (OpGet i) times) w st = Some (w, st', []) ∧
    find_article i (db st') = Some a' ∧
    content a' = content a ∧ file_path a' = file_path a.
Proof.
  revert st a. induction times as [|now times IH]; intros st a Hfind Hc.
  - by exists st, a.
  - simpl. rewrite (cached_lookup _ _ _ _ a) by done.
    set (st1 := mk_Store _ _).
    destruct (IH st1 (set_last_accessed now a)) as (st' & a' & -> & ? & ? & ?).
    + simpl. rewrite find_article_alter_first.
      * by rewrite Z.eqb_refl, Hfind.
      * intros b _. simpl. by eapply find_article_id.
    + done.
    + by exists st', a'.
Qed.

End Facts.

(** * The claims of the specification *)

(** ** C1: an article just created is served from memory *)

(** C1, as the code has it. For every title and every non-empty content,
    once [create_new_article] has returned an article, looking its id up
    returns that content and leaves the world as it is: no file operation is
    attempted, so no file is read. *)
Theorem created_content_is_cached t c now now' w st w1 st1 a :
  well_formed st →
  truthy c = true →
  create_new_article t c now w st = Some (w1, st1, Returns a) →
  ∃ st2 a',
    get_article (id a) now' w1 st1 = (w1, st2, Returns (Some a')) ∧
    content a' = c.
Proof.
  intros Hwf Hc.
  destruct (create_new_article_eq t c now w st) as (p & _ & _ & ->).
  destruct (write_fails w p); [done|]. intros [= <- <- <-]. simpl.
  rewrite (get_article_found _ _ _ _
             (mk_Article (next_id st) t c now now (Some p) now)).
  - rewrite load_content_cached by done. by eexists _, _.
  - apply find_article_app_fresh; [|done].
    apply well_formed_fresh; [done | lia].
Qed.

Lemma created_content_is_cached_witness :
  well_formed notes_store ∧
  truthy "body" = true ∧
  ∃ w1 st1 a,
    create_new_article "Notes" "body" quarter_past healthy_world notes_store
    = Some (w1, st1, Returns a) ∧
    ∃ st2 a',
      get_article (id a) one_o_clock w1 st1 = (w1, st2, Returns (Some a')) ∧
      content a' = "body".
Proof.
  split; [compute_done|]. split; [reflexivity|].
  eexists _, _, _. split; [vm_compute; reflexivity|].
  eapply (created_content_is_cached "Notes" "body" quarter_past one_o_clock
            healthy_world notes_store).
  - compute_done.
  - reflexivity.
  - vm_compute. reflexivity.
Defined.

(** With the empty content the lookup does read a file: the article created
    has a path and an empty content, which [get_article] takes for content
    that was never loaded, and the file just written is read back. *)
Lemma created_empty_content_is_read_back :
  match create_new_article "Draft" "" noon empty_world initial_store with
  | Some (w1, st1, Returns a) =>
    trace w1 = [EvWrite "archive/Draft.md" ""] ∧
    trace (get_article (id a) quarter_past w1 st1).1.1
    = [EvRead "archive/Draft.md"; EvWrite "archive/Draft.md" ""]
  | _ => False
  end.
Proof. vm_compute. done. Qed.

(** What the lookup does after a creation with the empty content: it reads
    the file of the article, and serves what the read yields. *)
Lemma created_empty_content_is_reloaded t now now' w st w1 st1 a :
  well_formed st →
  create_new_article t "" now w st = Some (w1, st1, Returns a) →
  ∃ p st2 a',
    file_path a = Some p ∧
    get_article (id a) now' w1 st1
    = (log (EvRead p) w1, st2, Returns (Some a')) ∧
    content a' = if read_fails w1 p then LOAD_FAILED else "".
Proof.
  intros Hwf.
  destruct (create_new_article_eq t "" now w st) as (p & Hp & _ & ->).
  destruct (write_fails w p) eqn:Hw; [done|]. intros [= <- <- <-]. simpl.
  assert (truthy p = true) as Htp.
  { unfold resolve_path in Hp. apply free_path_Some in Hp as [_ [->|H]].
    - rewrite path_join_archive; [done|]. by apply safe_title_no_slash.
    - destruct H as (_ & j & _ & -> & _). by rewrite candidate_shape. }
  set (a := mk_Article (next_id st) t "" now now (Some p) now).
  rewrite (get_article_found _ _ _ _ a).
  - rewrite (load_content_read _ a p) by done. simpl.
    rewrite lookup_insert_eq. exists p.
    destruct (read_fails w p); by eexists _, _.
  - apply find_article_app_fresh; [|done].
    apply well_formed_fresh; [done | simpl; lia].
Qed.

(** ** C2: an update whose write fails has already changed the record *)

(** C2. When the file of the article that [article_id] denotes cannot be
    written, [update_article_db] raises its [RuntimeError], and the store it
    leaves holds the record with the new title, the new content and the two
    new timestamps. Every other id denotes what it denoted and the counter
    has not moved. On the disk one write was attempted; no other file has
    changed, and the file itself is as it was when it could not even be
    opened. *)
Theorem failed_update_has_mutated_record i t c n1 n2 w st a p :
  find_article i (db st) = Some a →
  file_path a = Some p →
  truthy p = true →
  write_fails w p = true →
  ∃ w' st' a',
    update_article_db i t c n1 n2 w st
    = (w', st', Raises (RuntimeError "Failed to update article")) ∧
    find_article i (db st') = Some a' ∧
    title a' = t ∧ content a' = c ∧
    updated_at a' = n1 ∧ last_accessed a' = n2 ∧
    id a' = id a ∧ created_at a' = created_at a ∧
    file_path a' = file_path a ∧
    (∀ j, j ≠ i → find_article j (db st') = find_article j (db st)) ∧
    next_id st' = next_id st ∧
    trace w' = EvWrite p c :: trace w ∧
    (∀ q, q ≠ p → files w' !! q = files w !! q) ∧
    (write_leaves w p = None → files w' = files w).
Proof.
  intros Hfind Hp Htp Hfail. unfold update_article_db.
  rewrite (update_loop_found _ _ _ _ _ _ _ a) by done. simpl.
  rewrite Hp, Htp, Hfail. eexists _, _, (updated t c n1 n2 a).
  split; [reflexivity|]. simpl.
  assert (∀ b, id b = i → id (updated t c n1 n2 b) = i) as Hid by done.
  split.
  { rewrite find_article_alter_first by done. by rewrite Z.eqb_refl, Hfind. }
  do 7 (split; [done|]). split.
  { intros j Hj. rewrite find_article_alter_first by done.
    by destruct (Z.eqb_spec j i). }
  split; [done|]. split; [apply failed_write_trace|].
  split; [intros q Hq; by apply failed_write_other|].
  apply failed_write_untouched.
Qed.

Lemma failed_update_has_mutated_record_witness :
  find_article 1 (db notes_store) = Some notes_article ∧
  file_path notes_article = Some "archive/Notes.md" ∧
  truthy "archive/Notes.md" = true ∧
  write_fails broken_world "archive/Notes.md" = true ∧
  ∃ w' st' a',
    update_article_db 1 "Notes v2" "bye" quarter_past one_o_clock
                      broken_world notes_store
    = (w', st', Raises (RuntimeError "Failed to update article")) ∧
    find_article 1 (db st') = Some a' ∧
    title a' = "Notes v2" ∧ content a' = "bye" ∧
    updated_at a' = quarter_past ∧ last_accessed a' = one_o_clock ∧
    id a' = id notes_article ∧ created_at a' = created_at notes_article ∧
    file_path a' = file_path notes_article ∧
    (∀ j, j ≠ 1 →
          find_article j (db st') = find_article j (db notes_store)) ∧
    next_id st' = next_id notes_store ∧
    trace w' = EvWrite "archive/Notes.md" "bye" :: trace broken_world ∧
    (∀ q, q ≠ "archive/Notes.md" →
          files w' !! q = files broken_world !! q) ∧
    (write_leaves broken_world "archive/Notes.md" = None →
     files w' = files broken_world).
Proof.
  do 4 (split; [reflexivity|]).
  apply (failed_update_has_mutated_record 1 "Notes v2" "bye" quarter_past
           one_o_clock broken_world notes_store notes_article
           "archive/Notes.md"); reflexivity.
Defined.

(** On the sample disk the failed update leaves the record rewritten and
    the file emptied: memory and disk have parted. *)
Example failed_update_parts_memory_and_disk :
  let '(w', st', r) :=
    update_article_db 1 "Notes v2" "bye" quarter_past one_o_clock
                      broken_world notes_store in
  r = Raises (RuntimeError "Failed to update article") ∧
  content <$> find_article 1 (db st') = Some "bye" ∧
  files w' !! "archive/Notes.md" = Some (Text "").
Proof. vm_compute. done. Qed.

(** ** C3: a creation whose write fails leaves the store alone *)

(** C3. When the path [create_new_article] has settled on cannot be written,
    the function raises its [RuntimeError] and returns the store it was
    given: the list of articles and the counter are the same. *)
Theorem failed_create_leaves_store t c now w st p :
  resolve_path w (safe_title t) (strftime_dmy now) = Some p →
  write_fails w p = true →
  ∃ w',
    create_new_article t c now w st
    = Some (w', st, Raises (RuntimeError "Failed to save article")) ∧
    trace w' = EvWrite p c :: trace w.
Proof.
  intros Hp Hfail.
  destruct (create_new_article_eq t c now w st) as (q & Hq & _ & ->).
  assert (q = p) as -> by congruence. rewrite Hfail.
  eexists. split; [done|]. apply failed_write_trace.
Qed.

Lemma failed_create_leaves_store_witness :
  resolve_path broken_world (safe_title "Notes") (strftime_dmy quarter_past)
  = Some "archive/Notes_031126_1.md" ∧
  write_fails broken_world "archive/Notes_031126_1.md" = true ∧
  ∃ w',
    create_new_article "Notes" "body" quarter_past broken_world notes_store
    = Some (w', notes_store, Raises (RuntimeError "Failed to save article")) ∧
    trace w'
    = EvWrite "archive/Notes_031126_1.md" "body" :: trace broken_world.
Proof.
  split; [vm_compute; reflexivity|]. split; [reflexivity|].
  apply (failed_create_leaves_store "Notes" "body" quarter_past broken_world
           notes_store "archive/Notes_031126_1.md");
    [vm_compute; reflexivity | reflexivity].
Defined.

(** Conversely, whenever [create_new_article] raises, it is that error, the
    write was refused, and the store is the one it was given. *)
Lemma create_raises_only_on_write_failure t c now w st w' st' e :
  create_new_article t c now w st = Some (w', st', Raises e) →
  st' = st ∧ e = RuntimeError "Failed to save article" ∧
  ∃ p, resolve_path w (safe_title t) (strftime_dmy now) = Some p ∧
       write_fails w p = true.
Proof.
  destruct (create_new_article_eq t c now w st) as (p & Hp & _ & ->).
  destruct (write_fails w p) eqn:Hw; [|done].
  intros [= <- <- <-]. eauto.
Qed.

(** ** C9: updating an id that is not in the store *)

(** C9. For an id that no article carries, [update_article_db] returns [None]
    and hands back the world and the store it was given: no article has
    changed, no file operation was attempted, the counter is the same. *)
Theorem update_of_absent_id_changes_nothing i t c n1 n2 w st :
  find_article i (db st) = None →
  update_article_db i t c n1 n2 w st = (w, st, Returns None).
Proof.
  intros Habsent. unfold update_article_db.
  rewrite update_loop_absent by done. by destruct st.
Qed.

Lemma update_of_absent_id_changes_nothing_witness :
  find_article 7 (db notes_store) = None ∧
  update_article_db 7 "Ghost" "boo" quarter_past one_o_clock
                    healthy_world notes_store
  = (healthy_world, notes_store, Returns None).
Proof.
  split; [reflexivity|].
  apply (update_of_absent_id_changes_nothing 7 "Ghost" "boo" quarter_past
           one_o_clock healthy_world notes_store).
  reflexivity.
Defined.

(** ** C4: two creations under one title *)

(** C4. When [create_new_article] returns an article for a title and, called
    again right away for the same title, returns a second one, the two
    articles have different paths. The second path is the title followed by
    the day, month and year of the second call and by a counter, namely the
    first counter from 1 on whose name is free; the plain name and the names
    of all smaller counters are taken. After the second call the first file
    still holds the first content and the second file holds the second. *)
Theorem same_title_gets_distinct_files
    t c1 c2 now1 now2 w st w1 st1 a1 w2 st2 a2 :
  create_new_article t c1 now1 w st = Some (w1, st1, Returns a1) →
  create_new_article t c2 now2 w1 st1 = Some (w2, st2, Returns a2) →
  ∃ p1 p2 k,
    file_path a1 = Some p1 ∧ file_path a2 = Some p2 ∧ p1 ≠ p2 ∧
    1 ≤ k ∧
    p2 = "archive/" +:+ safe_title t +:+ "_" +:+ strftime_dmy now2 +:+ "_"
                    +:+ pretty k +:+ ".md" ∧
    path_exists w1 (path_join ARCHIVE_DIR (safe_title t +:+ ".md")) = true ∧
    (∀ i, 1 ≤ i < k →
          path_exists w1 (candidate (safe_title t) (strftime_dmy now2) i)
          = true) ∧
    path_exists w1 p2 = false ∧
    files w1 !! p1 = Some (Text c1) ∧
    files w2 !! p1 = Some (Text c1) ∧ files w2 !! p2 = Some (Text c2).
Proof.
  intros H1 H2.
  pose proof (plain_name_taken_after_create _ _ _ _ _ _ _ _ H1) as Hplain.
  destruct (create_new_article_eq t c1 now1 w st) as (p1 & Hp1 & Hfree1 & E1).
  rewrite E1 in H1. destruct (write_fails w p1); [done|].
  injection H1 as <- <- <-.
  set (w1 := with_files (<[p1:=Text c1]> (files w)) (log (EvWrite p1 c1) w))
    in *.
  set (st1 := mk_Store _ _) in *.
  destruct (create_new_article_eq t c2 now2 w1 st1)
    as (p2 & Hp2 & Hfree2 & E2).
  rewrite E2 in H2. destruct (write_fails w1 p2); [done|].
  injection H2 as <- <- <-.
  assert (files w1 !! p1 = Some (Text c1)) as Hfirst
    by apply lookup_insert_eq.
  assert (p1 ≠ p2) as Hne by congruence.
  unfold resolve_path in Hp2.
  apply free_path_Some in Hp2 as [Hfree [->|(_ & k & Hk & -> & Hbelow)]].
  { congruence. }
  exists p1, (candidate (safe_title t) (strftime_dmy now2) k), k.
  do 4 (split; [done|]). split; [apply candidate_shape|].
  do 4 (split; [done|]). simpl. split.
  - by rewrite lookup_insert_ne.
  - apply lookup_insert_eq.
Qed.

Lemma same_title_gets_distinct_files_witness :
  ∃ w1 st1 a1 w2 st2 a2,
    create_new_article "Todo" "milk" noon healthy_world notes_store
    = Some (w1, st1, Returns a1) ∧
    create_new_article "Todo" "eggs" quarter_past w1 st1
    = Some (w2, st2, Returns a2) ∧
    file_path a1 = Some "archive/Todo.md" ∧
    file_path a2 = Some "archive/Todo_031126_1.md" ∧
    ∃ p1 p2 k,
      file_path a1 = Some p1 ∧ file_path a2 = Some p2 ∧ p1 ≠ p2 ∧
      1 ≤ k ∧
      p2 = "archive/" +:+ safe_title "Todo" +:+ "_"
                      +:+ strftime_dmy quarter_past +:+ "_"
                      +:+ pretty k +:+ ".md" ∧
      path_exists w1 (path_join ARCHIVE_DIR (safe_title "Todo" +:+ ".md"))
      = true ∧
      (∀ i, 1 ≤ i < k →
            path_exists w1
              (candidate (safe_title "Todo") (strftime_dmy quarter_past) i)
            = true) ∧
      path_exists w1 p2 = false ∧
      files w1 !! p1 = Some (Text "milk") ∧
      files w2 !! p1 = Some (Text "milk") ∧
      files w2 !! p2 = Some (Text "eggs").
Proof.
  eexists _, _, _, _, _, _.
  split; [vm_compute; reflexivity|]. split; [vm_compute; reflexivity|].
  split; [reflexivity|]. split; [reflexivity|].
  eapply (same_title_gets_distinct_files "Todo" "milk" "eggs" noon
            quarter_past healthy_world notes_store);
    vm_compute; reflexivity.
Defined.

(** The same holds when the process does other things between the two
    calls, as long as nothing takes a file away: the second creation still
    finds the plain name taken, settles on a free suffixed name, and leaves
    the file of the first article as it found it. *)
Lemma same_title_after_other_operations
    t c1 c2 now1 now2 mid w st w1 st1 a1 w' st' ids w2 st2 a2 :
  create_new_article t c1 now1 w st = Some (w1, st1, Returns a1) →
  Forall removes_no_file mid →
  run mid w1 st1 = Some (w', st', ids) →
  create_new_article t c2 now2 w' st' = Some (w2, st2, Returns a2) →
  ∃ p1 p2 k,
    file_path a1 = Some p1 ∧ file_path a2 = Some p2 ∧ p1 ≠ p2 ∧
    1 ≤ k ∧
    p2 = candidate (safe_title t) (strftime_dmy now2) k ∧
    path_exists w' p1 = true ∧ path_exists w' p2 = false ∧
    files w2 !! p1 = files w' !! p1 ∧ files w2 !! p2 = Some (Text c2).
Proof.
  intros H1 Hmid Hrun H2.
  pose proof (plain_name_taken_after_create _ _ _ _ _ _ _ _ H1) as Hplain.
  pose proof (run_keeps_files _ _ _ _ _ _ Hmid Hrun) as Hkept.
  destruct (create_new_article_eq t c1 now1 w st) as (p1 & Hp1 & Hfree1 & E1).
  rewrite E1 in H1. destruct (write_fails w p1); [done|].
  injection H1 as <- <- <-.
  assert (path_exists w' p1 = true) as Hfirst.
  { apply path_exists_true, Hkept. simpl. rewrite dom_insert_L.
    apply elem_of_union_l. by apply elem_of_singleton. }
  apply path_exists_true, Hkept, path_exists_true in Hplain.
  destruct (create_new_article_eq t c2 now2 w' st')
    as (p2 & Hp2 & Hfree2 & E2).
  rewrite E2 in H2. destruct (write_fails w' p2); [done|].
  injection H2 as <- <- <-.
  assert (p1 ≠ p2) as Hne.
  { intros ->. apply path_exists_false in Hfree2. congruence. }
  unfold resolve_path in Hp2.
  apply free_path_Some in Hp2 as [Hfree [->|(_ & k & Hk & -> & Hbelow)]].
  { congruence. }
  exists p1, (candidate (safe_title t) (strftime_dmy now2) k), k.
  do 7 (split; [done|]). simpl. split.
  - by rewrite lookup_insert_ne.
  - apply lookup_insert_eq.
Qed.

(** ** C5: the sweeper *)

(** C5. One run of [cleanup_cache] empties the content of exactly the
    articles that are stale at the time of the run, and touches nothing
    else: the other articles, the other attributes, the order and the
    counter stay. A second run at the same reading of the clock returns the
    store it is given; so does a second run at any other reading at which
    no further article is stale; and so does a run on a store without stale
    articles. *)
Theorem sweep_is_idempotent now st :
  db (cleanup_cache now st)
  = map (λ a, if stale now a then set_content "" a else a) (db st) ∧
  next_id (cleanup_cache now st) = next_id st ∧
  cleanup_cache now (cleanup_cache now st) = cleanup_cache now st ∧
  (∀ now', (∀ a, a ∈ db st → stale now' a = true → stale now a = true) →
           cleanup_cache now' (cleanup_cache now st) = cleanup_cache now st) ∧
  ((∀ a, a ∈ db st → stale now a = false) → cleanup_cache now st = st).
Proof.
  split; [|split; [done|split; [|split]]].
  - simpl. apply map_ext. intros a. apply cleanup_article_stale.
  - by apply second_sweep_changes_nothing.
  - intros now'. apply second_sweep_changes_nothing.
  - intros Hclean. destruct st as [l n]. unfold cleanup_cache. simpl in *.
    f_equal. rewrite <- (map_id l) at 2. apply map_ext_in.
    intros a Ha%list_elem_of_In. rewrite cleanup_article_stale.
    by rewrite Hclean.
Qed.

Lemma sweep_is_idempotent_witness :
  map content (db (cleanup_cache quarter_to_one mixed_store))
  = [""; "milk"; ""] ∧
  cleanup_cache quarter_to_one (cleanup_cache quarter_to_one mixed_store)
  = cleanup_cache quarter_to_one mixed_store ∧
  (∀ a, a ∈ db mixed_store → stale half_past a = false) ∧
  cleanup_cache half_past mixed_store = mixed_store.
Proof.
  destruct (sweep_is_idempotent quarter_to_one mixed_store)
    as (_ & _ & Htwice & _).
  destruct (sweep_is_idempotent half_past mixed_store)
    as (_ & _ & _ & _ & Hnothing).
  split; [reflexivity|]. split; [exact Htwice|].
  assert (∀ a, a ∈ db mixed_store → stale half_past a = false) as Hclean.
  { intros a Ha. simpl in Ha. repeat apply elem_of_cons in Ha as [->|Ha];
      [reflexivity..|]. by apply elem_of_nil in Ha. }
  split; [exact Hclean|]. by apply Hnothing.
Defined.

(** ** C6: ids only grow *)

(** C6. Whatever a process does after the module is loaded - scans of the
    archive, creations, updates, deletions, lookups, sweeps, with other
    programs changing the directory in between - it runs to the end, and
    the ids it has handed out, listed in the order they were handed out,
    are strictly increasing: each one is greater than every id handed out
    before it, whether or not the earlier articles have been deleted. They
    are the numbers from 1 up to the counter. *)
Theorem ids_strictly_increasing ops w :
  ∃ w' st' ids,
    run ops w initial_store = Some (w', st', ids) ∧
    StronglySorted Z.lt ids ∧
    ids = seqZ 1 (next_id st' - 1).
Proof.
  destruct (run_total ops w initial_store) as [[[w' st'] ids] Hrun].
  exists w', st', ids. split; [done|].
  pose proof (run_issued _ _ _ _ _ _ Hrun) as [Hle ->].
  split; [apply seqZ_strictly_increasing | done].
Qed.

(** A scan of two files, a creation, the deletion of the first article and
    another creation hand out 1, 2, 3 and 4: the id of the deleted article
    does not come back. *)
Example ids_after_deletion :
  let env :=
    mk_Archive true false
      [mk_scan_entry "archive/Notes.md" (Some (noon, noon)) noon noon;
       mk_scan_entry "archive/Old.md" None noon noon] in
  match
    run [OpInit env; OpCreate "Todo" "milk" quarter_past; OpDelete 1;
         OpCreate "Todo" "eggs" half_past] healthy_world initial_store
  with
  | Some (_, st, ids) => ids = [1; 2; 3; 4] ∧ map id (db st) = [2; 3; 4]
  | None => False
  end.
Proof. vm_compute. done. Qed.

(** ** C7: loading on demand *)

(** C7. The load on demand does propagate one read error. When the article
    an id denotes has a path and an empty content, and its file is there
    and is handed out by the operating system but is no valid UTF-8,
    [get_article] raises [UnicodeDecodeError]: neither of its two [except]
    clauses takes it. The file was opened for reading; the article has been
    given neither a content nor a new access time, so the store is the one
    the call found, and every later lookup fails the same way. *)
Theorem undecodable_file_makes_lookup_raise i now w st a p :
  find_article i (db st) = Some a →
  content a = "" →
  file_path a = Some p →
  truthy p = true →
  files w !! p = Some NotUtf8 →
  read_fails w p = false →
  get_article i now w st = (log (EvRead p) w, st, Raises UnicodeDecodeError) ∧
  ∀ times now',
    ∃ w',
      run (map (OpGet i) times) w st = Some (w', st, []) ∧
      files w' = files w ∧
      (get_article i now' w' st).2 = Raises UnicodeDecodeError.
Proof.
  intros Hfind Hc Hp Htp Hheld Hread.
  assert (∀ w0, files w0 = files w → read_fails w0 = read_fails w →
            get_article i now w0 st
            = (log (EvRead p) w0, st, Raises UnicodeDecodeError) ∧
            ∀ now', get_article i now' w0 st
                    = (log (EvRead p) w0, st, Raises UnicodeDecodeError))
    as Hraise.
  { intros w0 Hf Hr.
    assert (load_content w0 a = (log (EvRead p) w0, Raises UnicodeDecodeError))
      as Hload.
    { rewrite (load_content_read w0 a p) by done. by rewrite Hf, Hheld, Hr, Hread. }
    split; [|intros now']; rewrite (get_article_found _ _ _ _ a) by done;
      by rewrite Hload. }
  split; [by apply Hraise|].
  intros times now'.
  assert (∀ w0, files w0 = files w → read_fails w0 = read_fails w →
            ∃ w', run (map (OpGet i) times) w0 st = Some (w', st, []) ∧
                  files w' = files w ∧ read_fails w' = read_fails w)
    as Hrun.
  { induction times as [|t times IH]; intros w0 Hf Hr; [by exists w0|].
    simpl. destruct (Hraise w0 Hf Hr) as [_ ->].
    destruct (IH (log (EvRead p) w0) Hf Hr) as (w' & -> & Hf' & Hr').
    by exists w'. }
  destruct (Hrun w eq_refl eq_refl) as (w' & Hw' & Hf' & Hr').
  exists w'. split; [done|]. split; [done|].
  destruct (Hraise w' Hf' Hr') as [_ ->]. done.
Qed.

Lemma undecodable_file_makes_lookup_raise_witness :
  find_article 1 (db scanned_store)
  = Some (mk_Article 1 "Notes" "" noon noon (Some "archive/Notes.md") noon) ∧
  files garbled_world !! "archive/Notes.md" = Some NotUtf8 ∧
  read_fails garbled_world "archive/Notes.md" = false ∧
  get_article 1 quarter_past garbled_world scanned_store
  = (log (EvRead "archive/Notes.md") garbled_world, scanned_store,
     Raises UnicodeDecodeError) ∧
  read_article "s3cret" None 1 quarter_past garbled_world scanned_store
  = (log (EvRead "archive/Notes.md") garbled_world, scanned_store,
     Fails (Uncaught UnicodeDecodeError)).
Proof.
  do 3 (split; [reflexivity|]).
  destruct (undecodable_file_makes_lookup_raise 1 quarter_past garbled_world
              scanned_store _ "archive/Notes.md" eq_refl eq_refl eq_refl
              eq_refl eq_refl eq_refl) as [Hget _].
  split; [exact Hget|]. unfold read_article. by rewrite Hget.
Defined.

(** In every other case the load is recovered as the specification has it.
    [get_article] opens the file for reading and returns the article: with
    the file's text, its line endings turned into line feeds, when the read
    goes through; with the file-missing message when there is no such file;
    with the load-failed message when the operating system refuses the
    read. The store holds the article as it was returned. *)
Lemma load_failure_yields_placeholder i now w st a p :
  find_article i (db st) = Some a →
  content a = "" →
  file_path a = Some p →
  truthy p = true →
  ¬ (files w !! p = Some NotUtf8 ∧ read_fails w p = false) →
  ∃ st' a',
    get_article i now w st = (log (EvRead p) w, st', Returns (Some a')) ∧
    find_article i (db st') = Some a' ∧
    id a' = i ∧ last_accessed a' = now ∧
    (files w !! p = None → content a' = FILE_MISSING) ∧
    (∀ held, files w !! p = Some held → read_fails w p = true →
             content a' = LOAD_FAILED) ∧
    (∀ text, files w !! p = Some (Text text) → read_fails w p = false →
             content a' = universal_newlines text).
Proof.
  intros Hfind Hc Hp Htp Hok.
  assert (∃ c, load_content w a = (log (EvRead p) w, Returns (set_content c a)) ∧
               (files w !! p = None → c = FILE_MISSING) ∧
               (∀ held, files w !! p = Some held → read_fails w p = true →
                        c = LOAD_FAILED) ∧
               (∀ text, files w !! p = Some (Text text) →
                        read_fails w p = false → c = universal_newlines text))
    as (c & Hload & Hcases).
  { rewrite (load_content_read w a p) by done.
    destruct (files w !! p) as [[text|]|]; [| |by eexists];
      destruct (read_fails w p) eqn:Hr.
    - eexists. split; [done|]. by repeat split; intros; simplify_eq.
    - eexists. split; [done|]. by repeat split; intros; simplify_eq.
    - eexists. split; [done|]. by repeat split; intros; simplify_eq.
    - by destruct Hok. }
  rewrite (get_article_found _ _ _ _ a) by done. rewrite Hload. simpl.
  eexists _, _. split; [reflexivity|]. simpl. split.
  { rewrite find_article_alter_first.
    - by rewrite Z.eqb_refl, Hfind.
    - intros b _. simpl. by eapply find_article_id. }
  split; [by eapply find_article_id|]. by split.
Qed.

(** On the sample disk: [Gone.md] is missing, [Locked.md] is refused. *)
Example placeholders_on_the_sample_disk :
  content <$> returned (get_article 3 quarter_past broken_world scanned_store).2
  = Some FILE_MISSING ∧
  content <$> returned (get_article 2 quarter_past broken_world scanned_store).2
  = Some LOAD_FAILED ∧
  content <$> returned (get_article 1 quarter_past healthy_world scanned_store).2
  = Some "hello".
Proof. vm_compute. done. Qed.

(** ** C8: deleting *)

(** C8. In a well-formed store, deleting the article an id denotes leaves a
    store in which that id denotes nothing, while every other id denotes
    what it denoted; this holds whether or not the file could be removed.
    A lookup of the id returns [None], right away and after whatever the
    process does next: the id does not come back. When the removal is
    refused the file stays on the disk; when it goes through the file is
    gone. For an id the store does not hold, [delete_article_db] returns the
    world and the store it was given. *)
Theorem delete_drops_record i now w st :
  well_formed st →
  (∀ a, find_article i (db st) = Some a →
     ∃ w' st',
       delete_article_db i w st = (w', st') ∧
       db st' = remove_first i (db st) ∧
       next_id st' = next_id st ∧
       find_article i (db st') = None ∧
       (∀ j, j ≠ i → find_article j (db st') = find_article j (db st)) ∧
       get_article i now w' st' = (w', st', Returns None) ∧
       (∀ ops w2 st2 ids, run ops w' st' = Some (w2, st2, ids) →
                          get_article i now w2 st2 = (w2, st2, Returns None)) ∧
       (∀ p, file_path a = Some p → truthy p = true →
             path_exists w p = true → remove_fails w p = true →
             files w' = files w ∧ trace w' = EvRemove p :: trace w) ∧
       (∀ p, file_path a = Some p → truthy p = true →
             path_exists w p = true → remove_fails w p = false →
             files w' = delete p (files w))) ∧
  (find_article i (db st) = None → delete_article_db i w st = (w, st)).
Proof.
  intros [Hlt Hnd]. split; [|apply delete_article_db_absent].
  intros a Hfind. rewrite (delete_article_db_found _ _ _ a) by done.
  eexists _, _. split; [reflexivity|]. simpl.
  do 2 (split; [done|]).
  assert (find_article i (remove_first i (db st)) = None) as Hgone.
  { rewrite find_article_remove_first by done. by rewrite Z.eqb_refl. }
  split; [done|]. split.
  { intros j Hj. rewrite find_article_remove_first by done.
    by destruct (Z.eqb_spec j i). }
  split; [by rewrite get_article_absent|]. split.
  { intros ops w2 st2 ids Hrun.
    apply get_article_absent, find_article_None.
    eapply (run_stays_absent ops _ _ _ _ _ i); [| |exact Hrun]; simpl.
    - rewrite Forall_forall in Hlt. apply Hlt.
      rewrite <- (find_article_id _ _ _ Hfind).
      apply list_elem_of_In, in_map, list_elem_of_In.
      by eapply find_article_elem.
    - by apply find_article_None. }
  split; intros p Hp Htp Hex Hrm; rewrite Hp, Htp, Hex; simpl;
    unfold remove_file; simpl; by rewrite Hrm.
Qed.

Lemma delete_drops_record_witness :
  well_formed notes_store ∧
  find_article 1 (db notes_store) = Some notes_article ∧
  remove_fails broken_world "archive/Notes.md" = true ∧
  delete_article_db 1 broken_world notes_store
  = (log (EvRemove "archive/Notes.md") broken_world, mk_Store [] 2) ∧
  get_article 1 quarter_past (log (EvRemove "archive/Notes.md") broken_world)
              (mk_Store [] 2)
  = (log (EvRemove "archive/Notes.md") broken_world, mk_Store [] 2,
     Returns None) ∧
  find_article 5 (db notes_store) = None ∧
  delete_article_db 5 broken_world notes_store = (broken_world, notes_store).
Proof.
  assert (well_formed notes_store) as Hwf by compute_done.
  destruct (delete_drops_record 1 quarter_past broken_world notes_store Hwf)
    as [Hfound _].
  destruct (delete_drops_record 5 quarter_past broken_world notes_store Hwf)
    as [_ Habsent].
  destruct (Hfound notes_article eq_refl)
    as (w' & st' & Hdel & _ & _ & _ & _ & Hget & _).
  injection Hdel as <- <-.
  split; [exact Hwf|]. do 3 (split; [reflexivity|]).
  split; [exact Hget|]. split; [reflexivity|]. by apply Habsent.
Defined.

(** On the sample disk: the removal of [Notes.md] is refused, the record
    goes all the same, the file stays, and the article created next gets
    the id 2, not the id 1 that has become free. *)
Example delete_with_failing_removal :
  let '(w1, st1) := delete_article_db 1 broken_world notes_store in
  db st1 = [] ∧
  files w1 !! "archive/Notes.md" = Some (Text "hello") ∧
  match
    run [OpOutside (files w1) (λ _, false) (λ _, None) (λ _, false)
                   (λ _, false);
         OpCreate "Notes" "again" one_o_clock] w1 st1
  with
  | Some (w2, st2, ids) =>
    ids = [2] ∧
    map file_path (db st2) = [Some "archive/Notes_031126_1.md"] ∧
    (get_article 1 one_o_clock w2 st2).2 = Returns None
  | None => False
  end.
Proof. vm_compute. done. Qed.

(** ** C10: a placeholder is cached like any content *)

(** C10. Let the article an id denotes have a path and one of the two
    failure messages as content.
    - After any number of lookups of that id, one more lookup returns the
      article with the same message and hands back the world it was given:
      no file is opened.
    - A sweep leaves the article as it is unless the article is stale at
      the time of the sweep, in which case its content becomes empty.
    - After such a sweep, the next lookup opens the file again. It returns
      the article, unless the file is by now there, handed out, and no
      UTF-8: then the lookup raises and the store stays as swept. *)
Theorem placeholder_is_cached_until_swept i w st a p :
  find_article i (db st) = Some a →
  file_path a = Some p →
  truthy p = true →
  content a = FILE_MISSING ∨ content a = LOAD_FAILED →
  (∀ times now, ∃ st1 st2 a',
      run (map (OpGet i) times) w st = Some (w, st1, []) ∧
      get_article i now w st1 = (w, st2, Returns (Some a')) ∧
      content a' = content a) ∧
  (∀ now,
      find_article i (db (cleanup_cache now st))
      = Some (if minutes 30 <? sub now (last_accessed a)
              then set_content "" a else a)) ∧
  (∀ now now', minutes 30 < sub now (last_accessed a) →
      ∃ st' r,
        get_article i now' w (cleanup_cache now st)
        = (log (EvRead p) w, st', r) ∧
        (¬ (files w !! p = Some NotUtf8 ∧ read_fails w p = false) →
         ∃ a', r = Returns (Some a')) ∧
        (files w !! p = Some NotUtf8 → read_fails w p = false →
         r = Raises UnicodeDecodeError ∧ st' = cleanup_cache now st)).
Proof.
  intros Hfind Hp Htp Hmsg.
  assert (truthy (content a) = true) as Hc by by destruct Hmsg as [-> | ->].
  assert (∀ now, cleanup_article now a
                 = if minutes 30 <? sub now (last_accessed a)
                   then set_content "" a else a) as Hsweep.
  { intros now. unfold cleanup_article. by rewrite Hp, Hc; simpl; rewrite Htp. }
  split; [|split].
  - intros times now.
    destruct (repeated_lookups i times w st a Hfind Hc)
      as (st1 & a1 & Hrun & Hfind1 & Hc1 & _).
    exists st1. eexists _, _. split; [done|].
    rewrite (cached_lookup _ _ _ _ a1) by (done || by rewrite Hc1).
    by split.
  - intros now. simpl. by rewrite find_article_cleanup, Hfind; simpl; rewrite Hsweep.
  - intros now now' Hexp%Z.ltb_lt.
    assert (find_article i (db (cleanup_cache now st))
            = Some (set_content "" a)) as Hswept.
    { simpl. by rewrite find_article_cleanup, Hfind; simpl;
        rewrite Hsweep, Hexp. }
    rewrite (get_article_found _ _ _ _ (set_content "" a)) by done.
    rewrite (load_content_read _ _ p) by done. simpl.
    destruct (files w !! p) as [[text|]|]; [destruct (read_fails w p)..|];
      simpl; eexists _, _; (split; [reflexivity|]).
    all: split; [intros Hok; try by eexists|try done].
    by destruct Hok.
Qed.

Lemma placeholder_is_cached_until_swept_witness :
  find_article 3 (db degraded_store) = Some gone_article ∧
  file_path gone_article = Some "archive/Gone.md" ∧
  truthy "archive/Gone.md" = true ∧
  (content gone_article = FILE_MISSING ∨ content gone_article = LOAD_FAILED) ∧
  (∀ times now, ∃ st1 st2 a',
      run (map (OpGet 3) times) broken_world degraded_store
      = Some (broken_world, st1, []) ∧
      get_article 3 now broken_world st1
      = (broken_world, st2, Returns (Some a')) ∧
      content a' = content gone_article) ∧
  (∀ now,
      find_article 3 (db (cleanup_cache now degraded_store))
      = Some (if minutes 30 <? sub now (last_accessed gone_article)
              then set_content "" gone_article else gone_article)) ∧
  (∀ now now', minutes 30 < sub now (last_accessed gone_article) →
      ∃ st' r,
        get_article 3 now' broken_world (cleanup_cache now degraded_store)
        = (log (EvRead "archive/Gone.md") broken_world, st', r) ∧
        (¬ (files broken_world !! "archive/Gone.md" = Some NotUtf8 ∧
            read_fails broken_world "archive/Gone.md" = false) →
         ∃ a', r = Returns (Some a')) ∧
        (files broken_world !! "archive/Gone.md" = Some NotUtf8 →
         read_fails broken_world "archive/Gone.md" = false →
         r = Raises UnicodeDecodeError ∧
         st' = cleanup_cache now degraded_store)).
Proof.
  do 3 (split; [reflexivity|]). split; [by left|].
  apply (placeholder_is_cached_until_swept 3 broken_world degraded_store
           gone_article "archive/Gone.md");
    [reflexivity | reflexivity | reflexivity | by left].
Defined.

(** The whole course on the sample archive: the first lookup finds the file
    missing, the second is answered from memory, a sweep three quarters of
    an hour later empties the content, and the lookup after it opens the
    file once more. *)
Example placeholder_life_cycle :
  let '(w1, st1, r1) := get_article 3 noon broken_world scanned_store in
  let '(w2, st2, r2) := get_article 3 quarter_past w1 st1 in
  let st3 := cleanup_cache one_o_clock st2 in
  let '(w4, st4, r4) := get_article 3 one_o_clock w2 st3 in
  content <$> returned r1 = Some FILE_MISSING ∧
  content <$> returned r2 = Some FILE_MISSING ∧
  trace w1 = [EvRead "archive/Gone.md"] ∧
  trace w2 = [EvRead "archive/Gone.md"] ∧
  content <$> find_article 3 (db st3) = Some "" ∧
  trace w4 = [EvRead "archive/Gone.md"; EvRead "archive/Gone.md"].
Proof. vm_compute. done. Qed.

(** * Further properties of the code *)

(** ** The listing *)

Section Listing.

Implicit Types (l : list Article) (a : Article) (i j : Z) (w : World)
  (st : Store).

Lemma get_articles_eq st : get_articles st = map article_info (db st).
Proof. reflexivity. Qed.

Lemma article_info_alter_first f i l a :
  find_article i l = Some a →
  article_info (f a) = article_info a →
  map article_info (alter_first f i l) = map article_info l.
Proof.
  intros Hfind Hf. induction l as [|b l IH]; simpl; [done|].
  rewrite find_article_cons in Hfind.
  destruct (id b =? i); simpl.
  - injection Hfind as ->. by rewrite Hf.
  - by rewrite IH.
Qed.

Lemma article_info_load_content w a a' :
  (load_content w a).2 = Returns a' → article_info a' = article_info a.
Proof. intros ->%load_content_returns. done. Qed.

Lemma article_info_cleanup now a :
  article_info (cleanup_article now a) = article_info a.
Proof.
  rewrite cleanup_article_stale. by destruct (stale now a).
Qed.

Lemma get_articles_cleanup now st :
  get_articles (cleanup_cache now st) = get_articles st.
Proof.
  rewrite !get_articles_eq. simpl. rewrite map_map.
  apply map_ext. intros a. apply article_info_cleanup.
Qed.

Lemma sublist_strongly_sorted (k1 k2 : list Z) :
  k1 `sublist_of` k2 → StronglySorted Z.lt k2 → StronglySorted Z.lt k1.
Proof.
  induction 1 as [|x k1 k2 Hsub IH|x k1 k2 Hsub IH]; intros Hs; [done|..].
  - apply StronglySorted_inv in Hs as [Hs Hx]. apply SSorted_cons; [auto|].
    rewrite Forall_forall in Hx |- *. intros y Hy. apply Hx.
    by eapply elem_of_sublist.
  - apply StronglySorted_inv in Hs as [Hs _]. auto.
Qed.

(** One operation keeps the ids in the store in increasing order and below
    the counter. *)
Lemma run_op_keeps_order o w st w' st' ids :
  StronglySorted Z.lt (map id (db st)) →
  Forall (λ i, i < next_id st) (map id (db st)) →
  run_op o w st = Some (w', st', ids) →
  StronglySorted Z.lt (map id (db st')) ∧
  Forall (λ i, i < next_id st') (map id (db st')).
Proof.
  intros Hsorted Hbelow Hrun.
  destruct (run_op_issued _ _ _ _ _ _ Hrun) as [Hle Hids].
  destruct (run_op_ids _ _ _ _ _ _ Hrun) as (kept & Hsub & ->).
  assert (Forall (λ i, i < next_id st) kept) as Hkept.
  { rewrite Forall_forall in Hbelow |- *. intros x Hx. apply Hbelow.
    by eapply elem_of_sublist. }
  rewrite Forall_forall in Hkept. split.
  - apply StronglySorted_app_2.
    + intros x y Hx Hy. apply Hkept in Hx. rewrite Hids in Hy.
      apply elem_of_seqZ in Hy. lia.
    + by eapply sublist_strongly_sorted.
    + rewrite Hids. apply seqZ_strictly_increasing.
  - apply Forall_app. split.
    + apply Forall_forall. intros x Hx. apply Hkept in Hx. lia.
    + rewrite Hids. apply Forall_seqZ. lia.
Qed.

Lemma run_keeps_order ops w st w' st' ids :
  StronglySorted Z.lt (map id (db st)) →
  Forall (λ i, i < next_id st) (map id (db st)) →
  run ops w st = Some (w', st', ids) →
  StronglySorted Z.lt (map id (db st')) ∧
  Forall (λ i, i < next_id st') (map id (db st')).
Proof.
  revert w st ids. induction ops as [|o ops IH]; intros w st ids Hs Hb; simpl.
  - by intros [= _ <- _].
  - destruct (run_op o w st) as [[[w1 st1] ids1]|] eqn:E1; [|done].
    destruct (run ops w1 st1) as [[[w2 st2] ids2]|] eqn:E2; [|done].
    intros [= <- <- <-].
    destruct (run_op_keeps_order _ _ _ _ _ _ Hs Hb E1) as [Hs1 Hb1].
    by eapply IH.
Qed.

End Listing.

(** X1. Looking an article up, sweeping the cache once, and any number of
    rounds of the periodic sweeper leave the listing of [get_articles] as it
    is: ids, titles, the two dates and the archived flag of every article,
    and their order. *)
Theorem listing_unchanged_by_lookups_and_sweeps i now w st wake_ups :
  get_articles (get_article i now w st).1.2 = get_articles st ∧
  get_articles (cleanup_cache now st) = get_articles st ∧
  get_articles (periodic_cleanup wake_ups st) = get_articles st.
Proof.
  split; [|split].
  - destruct (find_article i (db st)) as [a|] eqn:Hfind.
    + rewrite (get_article_found _ _ _ _ a) by done.
      destruct (load_content w a).2 as [a'|e] eqn:Hload; [|done]. simpl.
      rewrite !get_articles_eq. simpl.
      apply (article_info_alter_first _ _ _ a); [done|].
      by rewrite <- (article_info_load_content w a a').
    + by rewrite get_article_absent.
  - apply get_articles_cleanup.
  - unfold periodic_cleanup. revert st.
    induction wake_ups as [|t ts IH]; intros st; [done|].
    simpl. by rewrite IH, get_articles_cleanup.
Qed.

(** X2. In every store a process reaches, the articles stand in the order
    of their ids: the listing of [get_articles] is strictly increasing in
    the id, and every id in it is below the counter. *)
Theorem listing_is_in_id_order ops w w' st' ids :
  run ops w initial_store = Some (w', st', ids) →
  StronglySorted Z.lt (map info_id (get_articles st')) ∧
  Forall (λ i, i < next_id st') (map info_id (get_articles st')).
Proof.
  intros Hrun.
  assert (map info_id (get_articles st') = map id (db st')) as ->.
  { rewrite get_articles_eq, map_map. by apply map_ext. }
  eapply run_keeps_order; [| |exact Hrun]; constructor.
Qed.

Lemma listing_is_in_id_order_witness :
  ∃ w' st' ids,
    run [OpInit sample_archive; OpCreate "Todo" "milk" quarter_past;
         OpDelete 1; OpCreate "Todo" "eggs" half_past]
        healthy_world initial_store = Some (w', st', ids) ∧
    map info_id (get_articles st') = [2; 3; 4] ∧
    StronglySorted Z.lt (map info_id (get_articles st')) ∧
    Forall (λ i, i < next_id st') (map info_id (get_articles st')).
Proof.
  eexists _, _, _. split; [vm_compute; reflexivity|].
  split; [reflexivity|].
  eapply (listing_is_in_id_order
            [OpInit sample_archive; OpCreate "Todo" "milk" quarter_past;
             OpDelete 1; OpCreate "Todo" "eggs" half_past] healthy_world).
  vm_compute. reflexivity.
Defined.

(** ** Creating *)

Section Creating.

Implicit Types (a : Article) (w : World) (st : Store) (t c p q : string).

(** The name the search settles on is never the empty string. *)
Lemma resolved_path_truthy w t date_suffix p :
  resolve_path w (safe_title t) date_suffix = Some p → truthy p = true.
Proof.
  unfold resolve_path. intros [_ [->|H]]%free_path_Some.
  - rewrite path_join_archive; [done|]. by apply safe_title_no_slash.
  - destruct H as (_ & j & _ & -> & _). by rewrite candidate_shape.
Qed.

End Creating.

(** X3. A creation that succeeds puts the new article at the end of the
    store and of the listing, under the id the counter showed, with the
    title as given (not the sanitised one), both dates set to the time of
    the call and the archived flag set; the entries before it are the old
    listing, and the counter has moved on by one. *)
Theorem create_appends_to_listing t c now w st w' st' a :
  create_new_article t c now w st = Some (w', st', Returns a) →
  db st' = db st ++ [a] ∧
  next_id st' = next_id st + 1 ∧
  id a = next_id st ∧ title a = t ∧ content a = c ∧
  get_articles st'
  = get_articles st ++ [mk_ArticleInfo (next_id st) t now now true].
Proof.
  destruct (create_new_article_eq t c now w st) as (p & Hp & _ & ->).
  destruct (write_fails w p); [done|]. intros [= <- <- <-].
  do 5 (split; [done|]).
  rewrite !get_articles_eq. simpl. rewrite map_app. simpl.
  unfold article_info at 2. simpl.
  by rewrite (resolved_path_truthy _ _ _ _ Hp).
Qed.

Lemma create_appends_to_listing_witness :
  ∃ w' st' a,
    create_new_article "My Title!" "body" quarter_past healthy_world
                       notes_store = Some (w', st', Returns a) ∧
    db st' = db notes_store ++ [a] ∧
    next_id st' = next_id notes_store + 1 ∧
    id a = next_id notes_store ∧ title a = "My Title!" ∧ content a = "body" ∧
    get_articles st'
    = get_articles notes_store
      ++ [mk_ArticleInfo (next_id notes_store) "My Title!" quarter_past
                         quarter_past true].
Proof.
  eexists _, _, _. split; [vm_compute; reflexivity|].
  eapply (create_appends_to_listing "My Title!" "body" quarter_past
            healthy_world notes_store).
  vm_compute. reflexivity.
Defined.

(** X4. [create_new_article] never changes a file that is already there:
    whether it returns or raises, every path that held a file before the
    call holds the same text after it. *)
Theorem create_never_changes_existing_file t c now w st w' st' r q :
  create_new_article t c now w st = Some (w', st', r) →
  is_Some (files w !! q) →
  files w' !! q = files w !! q.
Proof.
  destruct (create_new_article_eq t c now w st) as (p & _ & Hfree & ->).
  intros Hrun [text Hq]. assert (q ≠ p) as Hne by congruence.
  destruct (write_fails w p); injection Hrun as <- _ _.
  - by apply failed_write_other.
  - simpl. by rewrite lookup_insert_ne.
Qed.

Lemma create_never_changes_existing_file_witness :
  ∃ w' st' r,
    create_new_article "Notes" "other" quarter_past broken_world notes_store
    = Some (w', st', r) ∧
    is_Some (files broken_world !! "archive/Notes.md") ∧
    files w' !! "archive/Notes.md" = files broken_world !! "archive/Notes.md".
Proof.
  eexists _, _, _. split; [vm_compute; reflexivity|].
  split; [by eexists|].
  eapply (create_never_changes_existing_file "Notes" "other" quarter_past
            broken_world notes_store).
  - vm_compute. reflexivity.
  - by eexists.
Defined.

(** X5. The search for a file name always ends, whatever the directory
    holds, and follows one rule: the plain name [archive/<title>.md] when it
    is free; otherwise the name with the date and the least counter from 1
    on that is free. The name returned is free in every case. *)
Theorem name_search_takes_first_free_name w t date_suffix :
  ∃ p,
    resolve_path w (safe_title t) date_suffix = Some p ∧
    path_exists w p = false ∧
    (path_exists w (path_join ARCHIVE_DIR (safe_title t +:+ ".md")) = false →
     p = "archive/" +:+ safe_title t +:+ ".md") ∧
    (path_exists w (path_join ARCHIVE_DIR (safe_title t +:+ ".md")) = true →
     ∃ k, 1 ≤ k ∧
          p = "archive/" +:+ safe_title t +:+ "_" +:+ date_suffix +:+ "_"
                         +:+ pretty k +:+ ".md" ∧
          ∀ i, 1 ≤ i < k →
               path_exists w (candidate (safe_title t) date_suffix i) = true).
Proof.
  destruct (resolve_path_total w t date_suffix) as [p Hp].
  exists p. split; [done|]. unfold resolve_path in Hp.
  apply free_path_Some in Hp as [Hfree Hcase]. split; [done|].
  assert (path_join ARCHIVE_DIR (safe_title t +:+ ".md")
          = "archive/" +:+ safe_title t +:+ ".md") as Hplain.
  { apply path_join_archive. by apply safe_title_no_slash. }
  split.
  - intros Hno. destruct Hcase as [->|[Hyes _]]; [done | congruence].
  - intros Hyes. destruct Hcase as [->|(_ & k & Hk & -> & Hbelow)].
    + congruence.
    + exists k. split; [done|]. split; [apply candidate_shape | done].
Qed.

(** ** Characters of file names *)

Section Characters.

Implicit Types (s t : string) (c x : ascii) (k : Z).

Lemma string_app_assoc s t u : (s +:+ t) +:+ u = s +:+ t +:+ u.
Proof.
  induction s as [|x s IH]; [done|]. rewrite !app_String. by rewrite IH.
Qed.

Lemma char_in_app c s t : char_in c (s +:+ t) = char_in c s || char_in c t.
Proof.
  induction s as [|x s IH]; [done|]. rewrite app_String. simpl.
  by rewrite IH, orb_assoc.
Qed.

Lemma safe_char_not_dot c : safe_char c ≠ "."%char.
Proof.
  unfold safe_char.
  destruct (isalnum c || char_in c " -_") eqn:E; [|done].
  intros ->. vm_compute in E. done.
Qed.

Lemma safe_title_chars c t :
  c = "/"%char ∨ c = "."%char → char_in c (safe_title t) = false.
Proof.
  intros Hc. induction t as [|x t IH]; [done|]. simpl. rewrite IH, orb_false_r.
  apply bool_decide_eq_false. intros Heq.
  destruct Hc as [-> | ->]; symmetry in Heq.
  - by apply safe_char_not_slash in Heq.
  - by apply safe_char_not_dot in Heq.
Qed.

(** The decimal digits of a number hold neither a slash nor a dot. *)
Lemma pretty_N_go_chars c (n : N) s :
  c = "/"%char ∨ c = "."%char →
  char_in c s = false → char_in c (pretty_N_go n s) = false.
Proof.
  intros Hc. revert s. induction (N.lt_wf_0 n) as [n _ IH]. intros s Hs.
  destruct (decide (n = 0%N)) as [->|Hn]; [by rewrite pretty_N_go_0|].
  rewrite pretty_N_go_step by lia. apply IH.
  - apply N.div_lt; lia.
  - simpl. rewrite Hs, orb_false_r. apply bool_decide_eq_false.
    unfold pretty_N_char. destruct Hc as [-> | ->]; by repeat case_match.
Qed.

Lemma pretty_N_chars c (n : N) :
  c = "/"%char ∨ c = "."%char → char_in c (pretty n) = false.
Proof.
  intros Hc. unfold pretty, pretty_N.
  destruct (decide (n = 0%N)).
  - by destruct Hc as [-> | ->].
  - by apply pretty_N_go_chars.
Qed.

Lemma pretty_Z_chars c k :
  c = "/"%char ∨ c = "."%char → char_in c (pretty k) = false.
Proof.
  intros Hc. destruct k as [|n|n].
  - by destruct Hc as [-> | ->].
  - by apply (pretty_N_chars c (N.pos n)).
  - change (pretty (Z.neg n)) with ("-" +:+ pretty (N.pos n)).
    rewrite char_in_app, (pretty_N_chars c (N.pos n)) by done.
    by destruct Hc as [-> | ->].
Qed.

Lemma strftime_dmy_chars c d :
  c = "/"%char ∨ c = "."%char → char_in c (strftime_dmy d) = false.
Proof.
  intros Hc. unfold strftime_dmy, pad2.
  rewrite !char_in_app.
  repeat case_match; rewrite ?char_in_app, !pretty_Z_chars by done;
    by destruct Hc as [-> | ->].
Qed.

End Characters.

(** X6. The file of a created article lies directly in the archive
    directory, whatever the title: its path is [archive/], a name without
    slash and without dot, and [.md]. A title such as [../../etc/passwd]
    cannot lead outside the directory. The name is empty only for the empty
    title with its plain name free. *)
Theorem created_file_is_inside_archive t c now w st w' st' a :
  create_new_article t c now w st = Some (w', st', Returns a) →
  ∃ name,
    file_path a = Some ("archive/" +:+ name +:+ ".md") ∧
    char_in "/" name = false ∧ char_in "." name = false ∧
    (t ≠ "" → name ≠ "").
Proof.
  destruct (create_new_article_eq t c now w st) as (p & Hp & _ & ->).
  destruct (write_fails w p); [done|]. intros [= <- <- <-]. simpl.
  unfold resolve_path in Hp. apply free_path_Some in Hp as [_ [->|H]].
  - exists (safe_title t).
    rewrite path_join_archive by by apply safe_title_no_slash.
    split; [done|]. rewrite !safe_title_chars by auto.
    do 2 (split; [done|]). by destruct t.
  - destruct H as (_ & k & _ & -> & _). rewrite candidate_shape.
    exists (safe_title t +:+ "_" +:+ strftime_dmy now +:+ "_" +:+ pretty k).
    split.
    { do 2 f_equal. by rewrite !string_app_assoc. }
    rewrite !char_in_app, !safe_title_chars, !strftime_dmy_chars,
      !pretty_Z_chars by auto.
    do 2 (split; [done|]). intros _. by destruct (safe_title t).
Qed.

Lemma created_file_is_inside_archive_witness :
  ∃ w' st' a,
    create_new_article "../../etc/passwd" "x" quarter_past healthy_world
                       notes_store = Some (w', st', Returns a) ∧
    file_path a = Some "archive/______etc_passwd.md" ∧
    ∃ name,
      file_path a = Some ("archive/" +:+ name +:+ ".md") ∧
      char_in "/" name = false ∧ char_in "." name = false ∧
      ("../../etc/passwd" ≠ "" → name ≠ "").
Proof.
  eexists _, _, _. split; [vm_compute; reflexivity|].
  split; [reflexivity|].
  eapply (created_file_is_inside_archive "../../etc/passwd" "x" quarter_past
            healthy_world notes_store).
  vm_compute. reflexivity.
Defined.

(** ** Titles read off file names *)

Section Slices.

Implicit Types (s t : string) (c x : ascii) (i found : Z) (n : nat).

Lemma ascii_eqb_sym c x : ascii_eqb c x = ascii_eqb x c.
Proof. unfold ascii_eqb. apply bool_decide_ext. split; congruence. Qed.

Lemma rfind_from_app i c s t found :
  rfind_from i c (s +:+ t) found
  = rfind_from (i + Z.of_nat (String.length s)) c t (rfind_from i c s found).
Proof.
  revert i found. induction s as [|x s IH]; intros i found.
  - simpl. rewrite app_empty_l. f_equal. lia.
  - rewrite app_String. simpl. rewrite IH. f_equal. lia.
Qed.

Lemma rfind_from_absent i c s found :
  char_in c s = false → rfind_from i c s found = found.
Proof.
  revert i found. induction s as [|x s IH]; intros i found; [done|].
  simpl. intros [Hx Hs]%orb_false_iff.
  rewrite <- ascii_eqb_sym, Hx. by apply IH.
Qed.

Lemma substring_0_all s n :
  (String.length s ≤ n)%nat → String.substring 0 n s = s.
Proof.
  revert n. induction s as [|x s IH]; intros [|n] Hn; simpl in *;
    [done | done | lia |].
  f_equal. apply IH. lia.
Qed.

Lemma substring_app_prefix s t :
  String.substring 0 (String.length s) (s +:+ t) = s.
Proof.
  induction s as [|x s IH].
  - rewrite app_empty_l. by destruct t.
  - rewrite app_String. simpl. by rewrite IH.
Qed.

Lemma substring_app_skip s t n :
  String.substring (String.length s) n (s +:+ t) = String.substring 0 n t.
Proof. induction s as [|x s IH]; [done|]. rewrite app_String. simpl. done. Qed.

(** The last component of [archive/<file>] is [<file>]. *)
Lemma basename_archive s :
  char_in "/" s = false → basename ("archive/" +:+ s) = s.
Proof.
  intros Hs. unfold basename, rfind, slice_from.
  rewrite rfind_from_app, (rfind_from_absent _ _ s) by done.
  change (rfind_from 0 "/" "archive/" (-1)) with 7.
  change (Z.to_nat (7 + 1)) with (String.length "archive/").
  rewrite substring_app_skip. apply substring_0_all.
  rewrite length_app. lia.
Qed.

(** What [splitext] leaves of [<name>.md]. *)
Lemma splitext_root_md s :
  char_in "/" s = false →
  splitext_root (s +:+ ".md") = if all_dots s then s +:+ ".md" else s.
Proof.
  intros Hs. unfold splitext_root, rfind.
  rewrite (rfind_from_absent _ "/" (s +:+ ".md"))
    by by rewrite char_in_app, Hs.
  rewrite (rfind_from_app _ "." s). simpl.
  rewrite Z.add_0_l.
  assert ((-1 <? Z.of_nat (String.length s)) = true) as ->
    by (apply Z.ltb_lt; lia).
  unfold slice. change (-1 + 1) with 0. change (Z.to_nat 0) with 0%nat.
  rewrite !Z.sub_0_r, !Nat2Z.id, !substring_app_prefix.
  by destruct (all_dots s).
Qed.

Lemma add_archived_title name e st :
  char_in "/" name = false →
  se_path e = "archive/" +:+ name +:+ ".md" →
  ∃ a,
    add_archived st e = mk_Store (db st ++ [a]) (next_id st + 1) ∧
    id a = next_id st ∧ content a = "" ∧
    file_path a = Some (se_path e) ∧ last_accessed a = se_now e ∧
    title a = if all_dots name then name +:+ ".md" else name.
Proof.
  intros Hname Hpath. unfold add_archived. rewrite Hpath.
  rewrite basename_archive by by rewrite char_in_app, Hname.
  rewrite splitext_root_md by done.
  destruct (se_times e) as [[created modified]|];
    (eexists; split; [reflexivity|]; done).
Qed.

End Slices.

(** X7. The scan titles a file [archive/<name>.md] after its name: the
    title is [<name>], except when the name is empty or made of dots only,
    in which case [splitext] finds no extension and the title is the whole
    file name with its [.md]. The article is registered under the id the
    counter shows, with an empty content, the path of the file, and the
    time of the scan as last access. *)
Theorem scan_titles_article_after_file name e st :
  char_in "/" name = false →
  se_path e = "archive/" +:+ name +:+ ".md" →
  ∃ a,
    add_archived st e = mk_Store (db st ++ [a]) (next_id st + 1) ∧
    id a = next_id st ∧ content a = "" ∧
    file_path a = Some (se_path e) ∧ last_accessed a = se_now e ∧
    title a = if all_dots name then name +:+ ".md" else name.
Proof. apply add_archived_title. Qed.

Lemma scan_titles_article_after_file_witness :
  (char_in "/" "release.notes" = false ∧
   ∃ a,
     add_archived initial_store
       (mk_scan_entry "archive/release.notes.md" None noon noon)
     = mk_Store [a] 2 ∧ title a = "release.notes") ∧
  (char_in "/" ".." = false ∧
   ∃ a,
     add_archived initial_store
       (mk_scan_entry "archive/...md" None noon noon)
     = mk_Store [a] 2 ∧ title a = "...md").
Proof.
  split; (split; [reflexivity|]).
  - destruct (scan_titles_article_after_file "release.notes"
                (mk_scan_entry "archive/release.notes.md" None noon noon)
                initial_store eq_refl eq_refl)
      as (a & Heq & _ & _ & _ & _ & Htitle).
    exists a. by split.
  - destruct (scan_titles_article_after_file ".."
                (mk_scan_entry "archive/...md" None noon noon)
                initial_store eq_refl eq_refl)
      as (a & Heq & _ & _ & _ & _ & Htitle).
    exists a. by split.
Defined.

(** X8. What a restart makes of a created article. When an article was
    created under a non-empty title and the scan of a later process finds
    its file, the scan registers it under the name of the file: the
    sanitised title when the plain name was free at the creation, in any
    case not necessarily the title it was created with. *)
Theorem restart_titles_article_after_its_file
    t c now w st w' st' a e st0 :
  t ≠ "" →
  create_new_article t c now w st = Some (w', st', Returns a) →
  file_path a = Some (se_path e) →
  ∃ name b,
    se_path e = "archive/" +:+ name +:+ ".md" ∧
    add_archived st0 e = mk_Store (db st0 ++ [b]) (next_id st0 + 1) ∧
    title b = name ∧ content b = "" ∧ file_path b = file_path a ∧
    (path_exists w (path_join ARCHIVE_DIR (safe_title t +:+ ".md")) = false →
     name = safe_title t).
Proof.
  intros Ht Hcreate Hpath.
  destruct (create_new_article_eq t c now w st) as (p & Hp & _ & E).
  rewrite E in Hcreate. destruct (write_fails w p); [done|].
  injection Hcreate as <- <- <-. simpl in Hpath. injection Hpath as Hpath.
  assert (∃ name, p = "archive/" +:+ name +:+ ".md" ∧
            char_in "/" name = false ∧ all_dots name = false ∧
            (path_exists w (path_join ARCHIVE_DIR (safe_title t +:+ ".md"))
             = false → name = safe_title t)) as (name & Hshape & Hs & Hd & Hpl).
  { assert (all_dots (safe_title t) = false) as Hnd.
    { destruct t as [|x t]; [done|]. simpl.
      apply andb_false_iff. left. apply bool_decide_eq_false.
      apply safe_char_not_dot. }
    unfold resolve_path in Hp. apply free_path_Some in Hp as [_ [->|H]].
    - exists (safe_title t).
      rewrite path_join_archive by by apply safe_title_no_slash.
      split; [done|]. by rewrite safe_title_chars by auto.
    - destruct H as (Hplain & k & _ & -> & _). rewrite candidate_shape.
      exists (safe_title t +:+ "_" +:+ strftime_dmy now +:+ "_" +:+ pretty k).
      split; [f_equal; by rewrite !string_app_assoc|].
      rewrite !char_in_app, !safe_title_chars, !strftime_dmy_chars,
        !pretty_Z_chars by auto.
      split; [done|]. split; [|congruence].
      destruct t as [|x t]; [done|]. simpl. rewrite app_String. simpl.
      apply andb_false_iff. left. apply bool_decide_eq_false.
      apply safe_char_not_dot. }
  rewrite Hpath in Hshape.
  destruct (add_archived_title name e st0 Hs Hshape)
    as (b & Hadd & _ & Hc & Hfp & _ & Htitle).
  exists name, b. rewrite Hd in Htitle. by rewrite Hfp, Hpath.
Qed.

Lemma restart_titles_article_after_its_file_witness :
  "My Title!" ≠ "" ∧
  ∃ w' st' a,
    create_new_article "My Title!" "body" quarter_past healthy_world
                       notes_store = Some (w', st', Returns a) ∧
    file_path a = Some "archive/My Title_.md" ∧
    ∃ b,
      add_archived initial_store
        (mk_scan_entry "archive/My Title_.md" None one_o_clock one_o_clock)
      = mk_Store [b] 2 ∧
      title b = "My Title_" ∧ content b = "".
Proof.
  split; [done|]. eexists _, _, _. split; [vm_compute; reflexivity|].
  split; [reflexivity|].
  destruct (restart_titles_article_after_its_file "My Title!" "body"
              quarter_past healthy_world notes_store _ _ _
              (mk_scan_entry "archive/My Title_.md" None one_o_clock
                             one_o_clock)
              initial_store ltac:(done) ltac:(vm_compute; reflexivity)
              eq_refl)
    as (name & b & _ & Hadd & Htitle & Hcontent & _ & Hplain).
  exists b. split; [exact Hadd|]. split; [|exact Hcontent].
  rewrite Htitle. by apply Hplain.
Defined.

(** ** Memory and disk *)

Section Eviction.

Implicit Types (l : list Article) (a : Article) (i j : Z) (w : World)
  (st : Store).

Lemma set_content_set_content s1 s2 a :
  set_content s1 (set_content s2 a) = set_content s1 a.
Proof. reflexivity. Qed.



End Eviction.



(** X10. An update whose write goes through changes memory and disk
    together: the record holds the new title, content and the two new
    times, the file of the article holds the new content, and no other file
    has changed. *)
Theorem update_writes_through i t c n1 n2 w st a p :
  find_article i (db st) = Some a →
  file_path a = Some p →
  truthy p = true →
  write_fails w p = false →
  ∃ w' st' a',
    update_article_db i t c n1 n2 w st = (w', st', Returns (Some a')) ∧
    find_article i (db st') = Some a' ∧
    title a' = t ∧ content a' = c ∧
    updated_at a' = n1 ∧ last_accessed a' = n2 ∧
    created_at a' = created_at a ∧ file_path a' = Some p ∧
    files w' !! p = Some (Text c) ∧
    (∀ q, q ≠ p → files w' !! q = files w !! q) ∧
    trace w' = EvWrite p c :: trace w.
Proof.
  intros Hfind Hp Htp Hok. unfold update_article_db.
  rewrite (update_loop_found _ _ _ _ _ _ _ a) by done. simpl.
  rewrite Hp, Htp, Hok. eexists _, _, (updated t c n1 n2 a).
  split; [reflexivity|]. simpl. split.
  { rewrite find_article_alter_first by done. by rewrite Z.eqb_refl, Hfind. }
  do 6 (split; [done|]). split; [apply lookup_insert_eq|].
  split; [|done]. intros q Hq. by rewrite lookup_insert_ne.
Qed.

Lemma update_writes_through_witness :
  find_article 1 (db notes_store) = Some notes_article ∧
  file_path notes_article = Some "archive/Notes.md" ∧
  truthy "archive/Notes.md" = true ∧
  write_fails healthy_world "archive/Notes.md" = false ∧
  ∃ w' st' a',
    update_article_db 1 "Notes v2" "bye" quarter_past half_past
                      healthy_world notes_store
    = (w', st', Returns (Some a')) ∧
    find_article 1 (db st') = Some a' ∧
    title a' = "Notes v2" ∧ content a' = "bye" ∧
    updated_at a' = quarter_past ∧ last_accessed a' = half_past ∧
    created_at a' = created_at notes_article ∧
    file_path a' = Some "archive/Notes.md" ∧
    files w' !! "archive/Notes.md" = Some (Text "bye") ∧
    (∀ q, q ≠ "archive/Notes.md" →
          files w' !! q = files healthy_world !! q) ∧
    trace w' = EvWrite "archive/Notes.md" "bye" :: trace healthy_world.
Proof.
  do 4 (split; [reflexivity|]).
  apply (update_writes_through 1 "Notes v2" "bye" quarter_past half_past
           healthy_world notes_store notes_article "archive/Notes.md");
    reflexivity.
Defined.

(** X11. An update whose file could not be opened is undone by the next
    eviction. The update raises and leaves the new title and the new
    content in memory; once the sweeper has emptied the content, or when the
    new content is empty, the next lookup reads the file, which still holds
    the old text: the article then shows the new title over the old
    content, as the read hands it out - with every line ending turned into
    a line feed. *)
Theorem failed_update_is_undone_by_eviction
    i t c n1 n2 later now' w st a p old :
  find_article i (db st) = Some a →
  file_path a = Some p →
  truthy p = true →
  write_fails w p = true →
  write_leaves w p = None →
  files w !! p = Some (Text old) →
  read_fails w p = false →
  minutes 30 < sub later n2 →
  ∃ w1 st1 w2 st2 a',
    update_article_db i t c n1 n2 w st
    = (w1, st1, Raises (RuntimeError "Failed to update article")) ∧
    get_article i now' w1 (cleanup_cache later st1)
    = (w2, st2, Returns (Some a')) ∧
    title a' = t ∧ content a' = universal_newlines old.
Proof.
  intros Hfind Hp Htp Hfail Hleft Hold Hread Hlate. unfold update_article_db.
  rewrite (update_loop_found _ _ _ _ _ _ _ a) by done. simpl.
  rewrite Hp, Htp, Hfail.
  set (a1 := updated t c n1 n2 a).
  set (st1 := mk_Store (alter_first (updated t c n1 n2) i (db st)) (next_id st)).
  assert (find_article i (db st1) = Some a1) as Hfind1.
  { simpl. rewrite find_article_alter_first by done.
    by rewrite Z.eqb_refl, Hfind. }
  assert (find_article i (db (cleanup_cache later st1))
          = Some (set_content "" a1)) as Hswept.
  { unfold cleanup_cache, st1 in *. simpl in *.
    rewrite find_article_cleanup, Hfind1. simpl. f_equal.
    unfold cleanup_article. simpl. rewrite Hp. simpl. rewrite Htp. simpl.
    destruct (truthy c) eqn:Hc.
    - apply Z.ltb_lt in Hlate. change CACHE_EXPIRY with (minutes 30).
      by rewrite Hlate.
    - by destruct c. }
  eexists _, st1, _, _, _. split; [reflexivity|].
  rewrite (get_article_found _ _ _ _ (set_content "" a1)) by done.
  rewrite (load_content_read _ _ p) by done.
  rewrite failed_write_untouched by done.
  assert (read_fails (failed_write w p c) p = false) as ->.
  { unfold failed_write. simpl. by rewrite Hleft. }
  rewrite Hold. simpl. by split.
Qed.

Lemma failed_update_is_undone_by_eviction_witness :
  ∃ w st,
    find_article 1 (db st) = Some notes_article ∧
    file_path notes_article = Some "archive/Notes.md" ∧
    write_fails w "archive/Notes.md" = true ∧
    write_leaves w "archive/Notes.md" = None ∧
    files w !! "archive/Notes.md" = Some (Text two_lines) ∧
    read_fails w "archive/Notes.md" = false ∧
    minutes 30 < sub one_o_clock quarter_past ∧
    ∃ w1 st1 w2 st2 a',
      update_article_db 1 "Notes v2" "bye" quarter_past quarter_past w st
      = (w1, st1, Raises (RuntimeError "Failed to update article")) ∧
      get_article 1 one_o_clock w1 (cleanup_cache one_o_clock st1)
      = (w2, st2, Returns (Some a')) ∧
      title a' = "Notes v2" ∧ content a' = "milk" +:+ String LF "eggs".
Proof.
  exists (mk_World {[ "archive/Notes.md" := Text two_lines ]} (λ _, true)
                   (λ _, None) (λ _, false) (λ _, false) []), notes_store.
  do 6 (split; [reflexivity|]). split; [reflexivity|].
  apply (failed_update_is_undone_by_eviction 1 "Notes v2" "bye" quarter_past
           quarter_past one_o_clock one_o_clock _ notes_store notes_article
           "archive/Notes.md" two_lines); reflexivity.
Defined.

(** X12. A sweep spares what was read within the last thirty minutes: when
    a lookup at [now] has returned an article and the sweeper runs at a
    time not more than thirty minutes later, the article is after the sweep
    exactly what the lookup returned, content included. *)
Theorem sweep_spares_recently_read_article i now later w st a' :
  (get_article i now w st).2 = Returns (Some a') →
  sub later now ≤ minutes 30 →
  last_accessed a' = now ∧
  find_article i (db (cleanup_cache later (get_article i now w st).1.2))
  = Some a'.
Proof.
  destruct (find_article i (db st)) as [a|] eqn:Hfind;
    [|by rewrite get_article_absent].
  rewrite (get_article_found _ _ _ _ a) by done.
  destruct (load_content w a).2 as [b|e] eqn:Hload; [|done].
  intros [= <-] Hrecent. split; [done|]. simpl.
  rewrite find_article_cleanup, find_article_alter_first.
  - rewrite Z.eqb_refl, Hfind. simpl. f_equal.
    unfold cleanup_article. simpl.
    assert ((CACHE_EXPIRY <? sub later now) = false) as ->
      by by apply Z.ltb_ge.
    by destruct (_ && _).
  - intros c _. rewrite set_last_accessed_id, (load_content_id _ _ _ Hload).
    by eapply find_article_id.
Qed.

Lemma sweep_spares_recently_read_article_witness :
  sub one_o_clock half_past ≤ minutes 30 ∧
  ∃ a',
    (get_article 1 half_past healthy_world scanned_store).2
    = Returns (Some a') ∧
    content a' = "hello" ∧
    last_accessed a' = half_past ∧
    find_article 1
      (db (cleanup_cache one_o_clock
             (get_article 1 half_past healthy_world scanned_store).1.2))
    = Some a'.
Proof.
  split; [by vm_compute|].
  eexists. split; [vm_compute; reflexivity|]. split; [reflexivity|].
  apply (sweep_spares_recently_read_article 1 half_past one_o_clock
           healthy_world scanned_store); [vm_compute; reflexivity|].
  by vm_compute.
Defined.

(** X13. A lookup changes no file and no other article. Whatever the id,
    and whether the lookup returns or raises, the files on the disk are the
    same afterwards, the counter and the number of articles are the same,
    every other id denotes what it denoted, and at most one file operation
    was attempted, a read. The lookup answers [None] exactly for the ids no
    article carries, and then changes nothing at all; when it raises, the
    store is the one it found. *)
Theorem lookup_changes_no_file_and_no_other_article i now w st :
  files (get_article i now w st).1.1 = files w ∧
  next_id (get_article i now w st).1.2 = next_id st ∧
  length (db (get_article i now w st).1.2) = length (db st) ∧
  (∀ j, j ≠ i →
        find_article j (db (get_article i now w st).1.2)
        = find_article j (db st)) ∧
  (trace (get_article i now w st).1.1 = trace w ∨
   ∃ p, trace (get_article i now w st).1.1 = EvRead p :: trace w) ∧
  ((get_article i now w st).2 = Returns None ↔ find_article i (db st) = None) ∧
  (find_article i (db st) = None →
   get_article i now w st = (w, st, Returns None)) ∧
  (∀ e, (get_article i now w st).2 = Raises e →
        (get_article i now w st).1.2 = st).
Proof.
  split; [apply get_article_files|]. split; [apply get_article_next_id|].
  split; [by rewrite <- !(length_map id), get_article_ids|].
  destruct (find_article i (db st)) as [a|] eqn:Hfind.
  - rewrite (get_article_found _ _ _ _ a) by done.
    pose proof (load_content_trace w a) as Htrace.
    destruct (load_content w a).2 as [a'|e] eqn:Hload; simpl.
    + split.
      { intros j Hj. rewrite find_article_alter_first.
        - by destruct (Z.eqb_spec j i).
        - intros b _. rewrite set_last_accessed_id, (load_content_id _ _ _ Hload).
          by eapply find_article_id. }
      by repeat split.
    + by repeat split.
  - rewrite get_article_absent by done. simpl.
    split; [done|]. split; [by left|]. by repeat split.
Qed.

(** ** Deleting and scanning *)

Section DeletingScanning.

Implicit Types (l : list Article) (a : Article) (i j : Z) (w : World)
  (st : Store).

Lemma remove_first_length i l a :
  find_article i l = Some a → length l = S (length (remove_first i l)).
Proof.
  induction l as [|b l IH]; [done|]. rewrite find_article_cons. simpl.
  destruct (id b =? i); [done|]. intros H. simpl. by rewrite <- IH.
Qed.

Lemma scan_entries es st :
  ∃ added,
    foldl add_archived st es
    = mk_Store (db st ++ added) (next_id st + Z.of_nat (length es)) ∧
    map id added = seqZ (next_id st) (Z.of_nat (length es)) ∧
    Forall2 scanned es added.
Proof.
  revert st. induction es as [|e es IH]; intros st.
  - exists []. simpl. rewrite app_nil_r, Z.add_0_r. by destruct st.
  - destruct (IH (add_archived st e)) as (added & Heq & Hids & Hall).
    set (a := mk_Article (next_id st)
                (splitext_root (basename (se_path e))) ""
                (match se_times e with
                 | Some (c, _) => c | None => se_now_fallback e end)
                (match se_times e with
                 | Some (_, m) => m | None => se_now_fallback e end)
                (Some (se_path e)) (se_now e)).
    assert (add_archived st e = mk_Store (db st ++ [a]) (next_id st + 1))
      as Hstep.
    { unfold add_archived, a. by destruct (se_times e) as [[c m]|]. }
    exists (a :: added). simpl foldl. rewrite Heq, Hstep. simpl.
    split; [f_equal; [by rewrite <- app_assoc | lia]|]. split.
    + rewrite Hstep in Hids. simpl in Hids. rewrite Hids.
      replace (Z.of_nat (S (length es))) with (Z.succ (Z.of_nat (length es)))
        by lia.
      rewrite (seqZ_cons (next_id st)) by lia. do 2 f_equal; lia.
    + constructor; [|done]. unfold scanned, a. simpl.
      do 4 (split; [done|]). by destruct (se_times e) as [[c m]|].
Qed.

End DeletingScanning.

(** X14. Deleting an article takes one record out of the store and removes
    at most the file of that article: every other path holds what it held.
    When the article has no path, or its file is not on the disk any more,
    no removal is attempted and the world is left as it is. *)
Theorem delete_removes_only_its_own_file i w st a :
  find_article i (db st) = Some a →
  length (db st) = S (length (db (delete_article_db i w st).2)) ∧
  (∀ q, file_path a ≠ Some q →
        files (delete_article_db i w st).1 !! q = files w !! q) ∧
  (∀ p, file_path a = Some p → path_exists w p = false →
        (delete_article_db i w st).1 = w) ∧
  (file_path a = None → (delete_article_db i w st).1 = w).
Proof.
  intros Hfind. rewrite (delete_article_db_found _ _ _ a) by done. simpl.
  split; [by eapply remove_first_length|]. split; [|split].
  - intros q Hq. destruct (file_path a) as [p|]; [|done].
    destruct (truthy p && path_exists w p); [|done].
    unfold remove_file. simpl. destruct (remove_fails w p); [done|]. simpl.
    rewrite lookup_delete_ne; [done | congruence].
  - intros p -> ->. by rewrite andb_false_r.
  - by intros ->.
Qed.

Lemma delete_removes_only_its_own_file_witness :
  find_article 3 (db scanned_store)
  = Some (mk_Article 3 "Gone" "" noon noon (Some "archive/Gone.md") noon) ∧
  path_exists healthy_world "archive/Gone.md" = false ∧
  length (db scanned_store)
  = S (length (db (delete_article_db 3 healthy_world scanned_store).2)) ∧
  (delete_article_db 3 healthy_world scanned_store).1 = healthy_world ∧
  files (delete_article_db 1 healthy_world scanned_store).1
  !! "archive/Notes.md" = None.
Proof.
  destruct (delete_removes_only_its_own_file 3 healthy_world scanned_store _
              eq_refl) as (Hlen & _ & Hgone & _).
  split; [reflexivity|]. split; [reflexivity|]. split; [exact Hlen|].
  split; [by apply (Hgone "archive/Gone.md")|]. reflexivity.
Defined.

(** X15. What the scan at start-up registers. When the archive directory
    is missing, the store stays as it is (the directory is created, or the
    error of [makedirs] is raised). Otherwise one article is appended per
    listed file, in the order of the listing and numbered from the counter
    on; each has the path of its file, an empty content - nothing is
    loaded - the title read off the file name, and the file's times, or the
    time of the scan when they cannot be read. *)
Theorem scan_registers_unloaded_articles env st :
  (dir_exists env = false →
   init_archive env st
   = (st, if makedirs_fails env then Raises OSError else Returns ())) ∧
  (dir_exists env = true →
   ∃ added,
     init_archive env st
     = (mk_Store (db st ++ added)
                 (next_id st + Z.of_nat (length (md_files env))),
        Returns ()) ∧
     map id added = seqZ (next_id st) (Z.of_nat (length (md_files env))) ∧
     Forall2 scanned (md_files env) added).
Proof.
  unfold init_archive. split; intros ->; simpl.
  - by destruct (makedirs_fails env).
  - destruct (scan_entries (md_files env) st) as (added & -> & Hids & Hall).
    by exists added.
Qed.

Lemma scan_registers_unloaded_articles_witness :
  dir_exists sample_archive = true ∧
  map (λ a, (id a, title a, content a, file_path a))
      (db (init_archive sample_archive notes_store).1)
  = [(1, "Notes", "hello", Some "archive/Notes.md");
     (2, "Notes", "", Some "archive/Notes.md");
     (3, "Old", "", Some "archive/Old.md")] ∧
  ∃ added,
    init_archive sample_archive notes_store
    = (mk_Store (db notes_store ++ added)
                (next_id notes_store
                 + Z.of_nat (length (md_files sample_archive))),
       Returns ()) ∧
    map id added
    = seqZ (next_id notes_store)
           (Z.of_nat (length (md_files sample_archive))) ∧
    Forall2 scanned (md_files sample_archive) added.
Proof.
  split; [reflexivity|]. split; [reflexivity|].
  by apply (scan_registers_unloaded_articles sample_archive notes_store).
Defined.

(** ** The handlers *)

Section Handlers.

Implicit Types (l : list Article) (a : Article) (i j : Z) (w : World)
  (st : Store) (key : string) (cookie : option string).

Lemma validate_admin_key_ok key : validate_admin_key key (Some key) = Sends key.
Proof. unfold validate_admin_key. by rewrite bool_decide_eq_true_2. Qed.

Lemma validate_admin_key_refused key cookie :
  cookie ≠ Some key →
  validate_admin_key key cookie = Fails (HTTPException 403).
Proof.
  intros Hne. unfold validate_admin_key. destruct cookie as [k|]; [|done].
  rewrite bool_decide_eq_false_2; [done | congruence].
Qed.

(** The two ways a lookup of an article in the store can end. *)
Lemma get_article_found_cases i now w st a :
  find_article i (db st) = Some a →
  (∃ w' st' a',
     get_article i now w st = (w', st', Returns (Some a')) ∧
     id a' = i ∧ last_accessed a' = now) ∨
  (content a = "" ∧
   ∃ p, file_path a = Some p ∧ files w !! p = Some NotUtf8 ∧
        read_fails w p = false ∧
        get_article i now w st
        = (log (EvRead p) w, st, Raises UnicodeDecodeError)).
Proof.
  intros Hfind. rewrite (get_article_found _ _ _ _ a) by done.
  destruct (load_content w a).2 as [a'|e] eqn:Hload.
  - left. eexists _, _, _. split; [reflexivity|]. split; [|done].
    rewrite set_last_accessed_id, (load_content_id _ _ _ Hload).
    by eapply find_article_id.
  - right.
    apply load_content_raises in Hload as (-> & Hc & p & Hp & Htp & Hf & Hr).
    split; [done|]. exists p. do 3 (split; [done|]).
    by rewrite (load_content_read w a p).
Qed.

Lemma article_info_id_elem l x :
  x ∈ map article_info l → info_id x ∈ map id l.
Proof.
  induction l as [|b l IH]; simpl; [by intros ?%elem_of_nil|].
  intros [->|Hx]%elem_of_cons.
  - apply list_elem_of_here.
  - by apply list_elem_of_further, IH.
Qed.

Lemma article_info_remove_first i l x :
  NoDup (map id l) →
  x ∈ map article_info (remove_first i l)
  ↔ x ∈ map article_info l ∧ info_id x ≠ i.
Proof.
  induction l as [|b l IH]; simpl; intros Hnd.
  - split; [by intros ?%elem_of_nil | by intros [?%elem_of_nil _]].
  - apply NoDup_cons in Hnd as [Hb Hnd]. rewrite elem_of_cons.
    destruct (Z.eqb_spec (id b) i) as [Hbi|Hbi].
    + split.
      * intros Hx. split; [by right|]. intros Hi.
        apply article_info_id_elem in Hx. congruence.
      * intros [[->|Hx] Hi]; [by destruct Hi | done].
    + simpl. rewrite elem_of_cons, IH by done. split.
      * intros [->|[Hx Hi]]; [by split; [left|] | by split; [right|]].
      * intros [[->|Hx] Hi]; [by left | by right].
Qed.

Lemma article_info_remove_first_sublist i l :
  map article_info (remove_first i l) `sublist_of` map article_info l.
Proof.
  induction l as [|b l IH]; simpl; [done|].
  destruct (id b =? i); simpl; [by apply sublist_cons | by apply sublist_skip].
Qed.

End Handlers.

(** X16. Without the admin key nothing is changed. When the cookie is
    missing or differs from the key, the form for a new article, the form
    for editing, and the handlers that create, update and delete all answer
    403, and world and store are the ones the request found: no file
    operation, no lookup, not even a refreshed access time. *)
Theorem handlers_refuse_without_admin_key key cookie :
  cookie ≠ Some key →
  new_article_form key cookie = Fails (HTTPException 403) ∧
  (∀ i now w st,
     edit_article_form key cookie i now w st
     = (w, st, Fails (HTTPException 403))) ∧
  (∀ t c now w st,
     create_article key cookie t c now w st
     = Some (w, st, Fails (HTTPException 403))) ∧
  (∀ i t c n1 n2 w st,
     update_article key cookie i t c n1 n2 w st
     = (w, st, Fails (HTTPException 403))) ∧
  (∀ i w st,
     remove_article key cookie i w st = (w, st, Fails (HTTPException 403))).
Proof.
  intros Hne%validate_admin_key_refused.
  unfold new_article_form, edit_article_form, create_article, update_article,
    remove_article.
  rewrite Hne. by repeat split.
Qed.

Lemma handlers_refuse_without_admin_key_witness :
  Some "guess" ≠ Some "s3cret" ∧
  remove_article "s3cret" (Some "guess") 1 healthy_world notes_store
  = (healthy_world, notes_store, Fails (HTTPException 403)) ∧
  create_article "s3cret" None "Todo" "milk" noon healthy_world notes_store
  = Some (healthy_world, notes_store, Fails (HTTPException 403)).
Proof.
  split; [done|]. split.
  - by apply (handlers_refuse_without_admin_key "s3cret" (Some "guess")).
  - by apply (handlers_refuse_without_admin_key "s3cret" None).
Defined.

(** X17. Reading needs no key. Whatever the cookie, [read_article] never
    answers 403. It answers 404 exactly for the ids no article carries, and
    then changes nothing. For an article in the store it sends the article
    page with the article as [get_article] returns it - except when the
    content is not loaded and the file is no UTF-8: then the
    [UnicodeDecodeError] of the lookup leaves the handler uncaught, and the
    store is as it was. The page is told that the reader is the admin
    exactly when the cookie holds the key. *)
Theorem read_article_needs_no_key key cookie i now w st :
  (find_article i (db st) = None →
   read_article key cookie i now w st = (w, st, Fails (HTTPException 404))) ∧
  (∀ a, find_article i (db st) = Some a →
     (∃ w' st' a',
        get_article i now w st = (w', st', Returns (Some a')) ∧
        read_article key cookie i now w st
        = (w', st',
           Sends (mk_TemplateResponse "article.html" (Some a') None None
                                      (is_admin key cookie)))) ∨
     (content a = "" ∧
      ∃ p, file_path a = Some p ∧ files w !! p = Some NotUtf8 ∧
           read_fails w p = false ∧
           read_article key cookie i now w st
           = (log (EvRead p) w, st, Fails (Uncaught UnicodeDecodeError)))) ∧
  (read_article key cookie i now w st).2 ≠ Fails (HTTPException 403) ∧
  (is_admin key cookie = true ↔ cookie = Some key).
Proof.
  split; [|split; [|split]].
  - intros Habsent. unfold read_article. by rewrite get_article_absent.
  - intros a Hfind. unfold read_article.
    destruct (get_article_found_cases i now w st a Hfind)
      as [(w' & st' & a' & -> & _)|(Hc & p & Hp & Hheld & Hr & ->)].
    + left. by eexists _, _, _.
    + right. split; [done|]. by exists p.
  - unfold read_article.
    by destruct (get_article i now w st) as [[w' st'] [[a'|]|e]].
  - unfold is_admin. apply bool_decide_eq_true.
Qed.



(** X19. [remove_article] never answers 404. With the admin key it always
    sends the list page, built from the store after the deletion: in a
    well-formed store that is the old listing, in its order, without the
    entry of the deleted id. For an id no article carries the listing, the
    store and the world are simply the old ones. *)
Theorem remove_article_sends_remaining_listing key i w st :
  well_formed st →
  ∃ w' st' listing,
    remove_article key (Some key) i w st
    = (w', st',
       Sends (mk_TemplateResponse "partials/article_list.html" None
                                  (Some listing) None true)) ∧
    listing = get_articles st' ∧
    listing `sublist_of` get_articles st ∧
    (∀ x, x ∈ listing ↔ x ∈ get_articles st ∧ info_id x ≠ i) ∧
    (find_article i (db st) = None →
     w' = w ∧ st' = st ∧ listing = get_articles st).
Proof.
  intros [_ Hnd]. unfold remove_article. rewrite validate_admin_key_ok.
  destruct (find_article i (db st)) as [a|] eqn:Hfind.
  - rewrite (delete_article_db_found _ _ _ a) by done.
    eexists _, _, _. split; [reflexivity|]. split; [done|].
    rewrite !get_articles_eq. simpl. split; [|split; [|done]].
    + apply article_info_remove_first_sublist.
    + intros x. by apply article_info_remove_first.
  - rewrite delete_article_db_absent by done.
    eexists _, _, _. split; [reflexivity|]. split; [done|].
    split; [done|]. split; [|done].
    intros x. split; [|by intros [? _]]. intros Hx. split; [done|].
    intros Hi. rewrite get_articles_eq in Hx.
    apply article_info_id_elem in Hx. apply find_article_None in Hfind.
    congruence.
Qed.

Lemma remove_article_sends_remaining_listing_witness :
  well_formed mixed_store ∧
  ∃ w' st' listing,
    remove_article "s3cret" (Some "s3cret") 2 healthy_world mixed_store
    = (w', st',
       Sends (mk_TemplateResponse "partials/article_list.html" None
                                  (Some listing) None true)) ∧
    map info_id listing = [1; 3] ∧
    listing = get_articles st' ∧
    listing `sublist_of` get_articles mixed_store ∧
    (∀ x, x ∈ listing ↔ x ∈ get_articles mixed_store ∧ info_id x ≠ 2) ∧
    (find_article 2 (db mixed_store) = None →
     w' = healthy_world ∧ st' = mixed_store ∧
     listing = get_articles mixed_store).
Proof.
  assert (well_formed mixed_store) as Hwf by compute_done.
  split; [exact Hwf|].
  destruct (remove_article_sends_remaining_listing "s3cret" 2 healthy_world
              mixed_store Hwf) as (w' & st' & listing & Heq & Hrest).
  exists w', st', listing. split; [exact Heq|]. split; [|exact Hrest].
  vm_compute in Heq. by injection Heq as _ _ <-.
Defined.

(** X20. The edit form. With the admin key, [edit_article_form] answers 404
    for an id no article carries and changes nothing. For an article in the
    store it counts as an access: the article is looked up as by
    [get_article], which refreshes its last access, and the form is sent
    filled with that article - except when the content is not loaded and
    the file is no UTF-8: then the [UnicodeDecodeError] of the lookup leaves
    the handler uncaught, and the store is as it was. The form posts to the
    address of that article: different ids give different addresses, and
    none of them is the address [/articles] to which the form for a new
    article posts. *)
Theorem edit_form_posts_to_its_article key i now w st :
  (find_article i (db st) = None →
   edit_article_form key (Some key) i now w st
   = (w, st, Fails (HTTPException 404))) ∧
  (∀ a, find_article i (db st) = Some a →
     (∃ w' st' a',
        get_article i now w st = (w', st', Returns (Some a')) ∧
        edit_article_form key (Some key) i now w st
        = (w', st',
           Sends (mk_TemplateResponse "form.html" (Some a') None
                    (Some ("/articles/" +:+ pretty i)) true)) ∧
        id a' = i ∧ last_accessed a' = now) ∨
     (content a = "" ∧
      ∃ p, file_path a = Some p ∧ files w !! p = Some NotUtf8 ∧
           read_fails w p = false ∧
           edit_article_form key (Some key) i now w st
           = (log (EvRead p) w, st, Fails (Uncaught UnicodeDecodeError)))) ∧
  (∀ j, "/articles/" +:+ pretty j = "/articles/" +:+ pretty i → j = i) ∧
  new_article_form key (Some key)
  = Sends (mk_TemplateResponse "form.html" None None (Some "/articles") true) ∧
  "/articles/" +:+ pretty i ≠ "/articles".
Proof.
  unfold edit_article_form, new_article_form. rewrite validate_admin_key_ok.
  split; [|split; [|split; [|split]]].
  - intros Habsent. by rewrite get_article_absent.
  - intros a Hfind.
    destruct (get_article_found_cases i now w st a Hfind)
      as [(w' & st' & a' & -> & Hid & Hla)|(Hc & p & Hp & Hheld & Hr & ->)].
    + left. by eexists _, _, _.
    + right. split; [done|]. by exists p.
  - intros j Hj. apply String.app_inj in Hj. by apply pretty_Z_inj in Hj.
  - done.
  - intros Heq. simpl in Heq. discriminate.
Qed.
